(** * The Mom Chef backend: a shallow embedding of [server.js]

    The server keeps four collections (menu, orders, reservations,
    customers), each one JSON document on disk, and every route reads the
    whole document, changes it in memory and writes it back.

    The embedding has three layers:
    - JavaScript values as they come out of [JSON.parse] and go into
      [JSON.stringify], with the printer and the parser of the runtime
      written out on texts;
    - the file system and the two helpers [readData] and [writeData], in a
      small state-and-exception monad;
    - the route handlers, one definition per route.

    Modelling decisions, stated once:
    - a JavaScript number is a safe integer ([Z], at most 2^53 - 1 in
      absolute value): these are held exactly and printed in plain decimal
      notation. Fractions, exponents, larger numbers, NaN and the
      infinities are outside the embedding: the parser refuses their
      literals, so whatever it accepts it reads as JavaScript does (the
      sign of a zero apart, which this program cannot observe);
    - a JavaScript string is a [string] whose characters are the code units
      0..255; the parser refuses a [\u] escape above that range;
    - an object is the list of its own properties in property order: array
      indices first, ascending, then the other keys in creation order;
    - [req.body] is the object that [express.json()] produced;
    - the clock readings of a request are inputs of its handler;
    - json2csv, a library, is a parameter of the export handlers. *)

From Stdlib Require Import ZArith List Ascii String Lia DecimalString DecimalZ DecimalPos DecimalFacts.
From stdpp Require Import gmap strings.
Import ListNotations.

Local Open Scope string_scope.
Local Open Scope Z_scope.
Local Open Scope list_scope.

(** ** Values *)

Abbreviation text := (list ascii).

Unset Elimination Schemes.
Inductive jsval : Type :=
| JUndefined
| JNull
| JBool (b : bool)
| JNum (n : Z)
| JStr (s : string)
| JArr (l : list jsval)
| JObj (l : list (string * jsval)).
Set Elimination Schemes.

Abbreviation object := (list (string * jsval)).

(** ** Induction on values, through arrays and objects *)

Section jsval_induction.
Variable P : jsval -> Prop.
Hypothesis P_undefined : P JUndefined.
Hypothesis P_null : P JNull.
Hypothesis P_bool : forall b, P (JBool b).
Hypothesis P_num : forall n, P (JNum n).
Hypothesis P_str : forall s, P (JStr s).
Hypothesis P_arr : forall l, Forall P l -> P (JArr l).
Hypothesis P_obj : forall o, Forall (fun kv => P (snd kv)) o -> P (JObj o).

Fixpoint jsval_ind (v : jsval) : P v :=
  match v with
  | JUndefined => P_undefined
  | JNull => P_null
  | JBool b => P_bool b
  | JNum n => P_num n
  | JStr s => P_str s
  | JArr l =>
      P_arr l
        ((fix elements (l : list jsval) : Forall P l :=
            match l with
            | [] => @List.Forall_nil _ P
            | e :: l' => @List.Forall_cons _ P e l' (jsval_ind e) (elements l')
            end) l)
  | JObj o =>
      P_obj o
        ((fix members (o : object) : Forall (fun kv => P (snd kv)) o :=
            match o with
            | [] => @List.Forall_nil _ _
            | kv :: o' =>
                @List.Forall_cons _ _ kv o' (jsval_ind (snd kv)) (members o')
            end) o)
  end.
End jsval_induction.

(** ** Decimal numerals *)

Module Numeral.

(** The characters of a numeral, most significant digit first. *)
Fixpoint digits (d : Decimal.uint) : text :=
  match d with
  | Decimal.Nil => []
  | Decimal.D0 d => "0"%char :: digits d
  | Decimal.D1 d => "1"%char :: digits d
  | Decimal.D2 d => "2"%char :: digits d
  | Decimal.D3 d => "3"%char :: digits d
  | Decimal.D4 d => "4"%char :: digits d
  | Decimal.D5 d => "5"%char :: digits d
  | Decimal.D6 d => "6"%char :: digits d
  | Decimal.D7 d => "7"%char :: digits d
  | Decimal.D8 d => "8"%char :: digits d
  | Decimal.D9 d => "9"%char :: digits d
  end.

Definition digit (c : ascii) : option (Decimal.uint -> Decimal.uint) :=
  match N_of_ascii c with
  | 48 => Some Decimal.D0
  | 49 => Some Decimal.D1
  | 50 => Some Decimal.D2
  | 51 => Some Decimal.D3
  | 52 => Some Decimal.D4
  | 53 => Some Decimal.D5
  | 54 => Some Decimal.D6
  | 55 => Some Decimal.D7
  | 56 => Some Decimal.D8
  | 57 => Some Decimal.D9
  | _ => None
  end%N.

(** The digits at the start of a text, and the rest of it. *)
Fixpoint take_digits (s : text) : Decimal.uint * text :=
  match s with
  | [] => (Decimal.Nil, [])
  | c :: s' =>
      match digit c with
      | Some D => let (d, r) := take_digits s' in (D d, r)
      | None => (Decimal.Nil, s)
      end
  end.

(** No leading zero: the form [Number::toString] prints. *)
Definition canonical (d : Decimal.uint) : bool :=
  match d with
  | Decimal.Nil => false
  | Decimal.D0 Decimal.Nil => true
  | Decimal.D0 _ => false
  | _ => true
  end.

End Numeral.

Module Obj.

(** The array index a property key denotes, if any: a numeral without a
    leading zero, below 2^32 - 1. *)
Definition array_index (k : string) : option N :=
  match Numeral.take_digits (list_ascii_of_string k) with
  | (d, []) =>
      if Numeral.canonical d then
        let i := N.of_uint d in
        if (i <? 4294967295)%N then Some i else None
      else None
  | (_, _ :: _) => None
  end.

(** Property order: array indices first, ascending, then the other keys
    as they were created. [before k k'] says that [k] may stand before
    [k'] in an object. *)
Definition before (k k' : string) : bool :=
  match array_index k, array_index k' with
  | Some i, Some j => (i <? j)%N
  | Some _, None => true
  | None, Some _ => false
  | None, None => true
  end.

(** The new key [k] has to go in front of the existing key [k']. *)
Definition precedes (k k' : string) : bool :=
  match array_index k with
  | Some _ => before k k'
  | None => false
  end.

Fixpoint ordered (ks : list string) : bool :=
  match ks with
  | [] => true
  | k :: ks' => forallb (before k) ks' && ordered ks'
  end.

(** [o[k]] on own properties; [undefined] when the key is absent. *)
Fixpoint get (k : string) (o : object) : jsval :=
  match o with
  | [] => JUndefined
  | (k', v) :: o' => if String.eqb k k' then v else get k o'
  end.

(** [o[k] = v] on an object in property order: an existing key keeps its
    place; a new array index goes to its place among the indices; any
    other new key goes last. *)
Fixpoint set (k : string) (v : jsval) (o : object) : object :=
  match o with
  | [] => [(k, v)]
  | (k', v') :: o' =>
      if String.eqb k k' then (k', v) :: o'
      else if precedes k k' then (k, v) :: o
      else (k', v') :: set k v o'
  end.

(** [{ ...target, ...source }]: every own property of [source], in
    order, is set on [target]. *)
Definition spread (target source : object) : object :=
  fold_left (fun o kv => set (fst kv) (snd kv) o) source target.

Definition keys (o : object) : list string := map fst o.

End Obj.

(** ** The runtime's JSON printer: [JSON.stringify(v, null, 2)] *)

Module JSON.
Import Numeral.

Definition newline : ascii := ascii_of_nat 10.
Definition quotation_mark : ascii := ascii_of_nat 34.
Definition gap : text := [" "; " "]%char.

Definition chars (s : string) : text := list_ascii_of_string s.

(** *** Numbers *)

(** The integers that a JavaScript number holds exactly and prints in
    plain decimal notation. *)
Definition safe_integer (n : Z) : bool := (Z.abs n <=? 9007199254740991)%Z.

(** [Number::toString] on an integer. *)
Definition Number_toString (n : Z) : text :=
  match Z.to_int n with
  | Decimal.Pos d => digits d
  | Decimal.Neg d => "-"%char :: digits d
  end.

(** *** Strings *)

Definition hex_digit (n : N) : ascii :=
  if (n <? 10)%N then ascii_of_N (48 + n) else ascii_of_N (87 + n).

(** One code unit of [QuoteJSONString]. *)
Definition quote_char (c : ascii) : text :=
  let n := N_of_ascii c in
  if (n =? 34)%N then ["\"%char; quotation_mark]
  else if (n =? 92)%N then ["\"; "\"]%char
  else if (n =? 8)%N then ["\"; "b"]%char
  else if (n =? 12)%N then ["\"; "f"]%char
  else if (n =? 10)%N then ["\"; "n"]%char
  else if (n =? 13)%N then ["\"; "r"]%char
  else if (n =? 9)%N then ["\"; "t"]%char
  else if (n <? 32)%N then
    ["\"; "u"; "0"; "0"; hex_digit (n / 16); hex_digit (n mod 16)]%char
  else [c].

Fixpoint quote_chars (s : text) : text :=
  match s with
  | [] => []
  | c :: s' => quote_char c ++ quote_chars s'
  end.

Definition QuoteJSONString (s : string) : text :=
  quotation_mark :: quote_chars (chars s) ++ [quotation_mark].

(** *** Values *)

Fixpoint join (sep : text) (parts : list text) : text :=
  match parts with
  | [] => []
  | [p] => p
  | p :: ps => p ++ sep ++ join sep ps
  end.

Definition wrap (open close : ascii) (stepback indent : text)
    (partial : list text) : text :=
  match partial with
  | [] => [open; close]
  | _ =>
      open :: newline :: indent
        ++ join (","%char :: newline :: indent) partial
        ++ newline :: stepback ++ [close]
  end.

(** [SerializeJSONProperty]: [None] is the [undefined] that the runtime
    returns for a value with no JSON form. An [undefined] element of an
    array is printed as [null]; an [undefined] property is left out. *)
Fixpoint SerializeJSONProperty (stepback : text) (v : jsval) : option text :=
  match v with
  | JUndefined => None
  | JNull => Some (chars "null")
  | JBool true => Some (chars "true")
  | JBool false => Some (chars "false")
  | JNum n => Some (Number_toString n)
  | JStr s => Some (QuoteJSONString s)
  | JArr l =>
      let indent := stepback ++ gap in
      let partial :=
        (fix elements (l : list jsval) : list text :=
           match l with
           | [] => []
           | e :: l' =>
               match SerializeJSONProperty indent e with
               | Some t => t
               | None => chars "null"
               end :: elements l'
           end) l in
      Some (wrap "["%char "]"%char stepback indent partial)
  | JObj o =>
      let indent := stepback ++ gap in
      let partial :=
        (fix members (o : object) : list text :=
           match o with
           | [] => []
           | (k, e) :: o' =>
               match SerializeJSONProperty indent e with
               | Some t =>
                   (QuoteJSONString k ++ ":"%char :: " "%char :: t)
                     :: members o'
               | None => members o'
               end
           end) o in
      Some (wrap "{"%char "}"%char stepback indent partial)
  end.

(** [JSON.stringify(v, null, 2)] *)
Definition stringify (v : jsval) : option string :=
  option_map string_of_list_ascii (SerializeJSONProperty [] v).

(** ** The runtime's JSON parser: [JSON.parse] *)

Definition is_ws (c : ascii) : bool :=
  let n := N_of_ascii c in
  (n =? 32)%N || (n =? 9)%N || (n =? 10)%N || (n =? 13)%N.

Fixpoint skip_ws (s : text) : text :=
  match s with
  | c :: s' => if is_ws c then skip_ws s' else s
  | [] => []
  end.

(** A character that would continue a number literal with a fraction or
    an exponent. *)
Definition continues_number (s : text) : bool :=
  match s with
  | c :: _ =>
      let n := N_of_ascii c in (n =? 46)%N || (n =? 101)%N || (n =? 69)%N
  | [] => false
  end.

(** The integer part of a JSON number: a lone [0], or a nonzero digit
    followed by digits. *)
Definition parse_int (s : text) : option (Decimal.uint * text) :=
  match s with
  | [] => None
  | c :: s' =>
      if (N_of_ascii c =? 48)%N then Some (Decimal.D0 Decimal.Nil, s')
      else match digit c with
           | Some _ => Some (take_digits s)
           | None => None
           end
  end.

Definition parse_number (s : text) : option (jsval * text) :=
  let '(negative, s1) :=
    match s with
    | c :: s' => if (N_of_ascii c =? 45)%N then (true, s') else (false, s)
    | [] => (false, s)
    end in
  match parse_int s1 with
  | Some (d, r) =>
      let n := Z.of_int (if negative then Decimal.Neg d else Decimal.Pos d) in
      if continues_number r then None
      else if safe_integer n then Some (JNum n, r)
      else None
  | None => None
  end.

Definition hex_value (c : ascii) : option N :=
  let n := N_of_ascii c in
  if (48 <=? n)%N && (n <=? 57)%N then Some (n - 48)%N
  else if (97 <=? n)%N && (n <=? 102)%N then Some (n - 87)%N
  else if (65 <=? n)%N && (n <=? 70)%N then Some (n - 55)%N
  else None.

Definition hex4 (a b c d : ascii) : option N :=
  match hex_value a, hex_value b, hex_value c, hex_value d with
  | Some x, Some y, Some z, Some w =>
      Some (((x * 16 + y) * 16 + z) * 16 + w)%N
  | _, _, _, _ => None
  end.

(** The character an escape letter stands for. *)
Definition unescape (e : ascii) : option ascii :=
  match N_of_ascii e with
  | 34 => Some quotation_mark
  | 92 => Some "\"%char
  | 47 => Some "/"%char
  | 98 => Some (ascii_of_N 8)
  | 102 => Some (ascii_of_N 12)
  | 110 => Some (ascii_of_N 10)
  | 114 => Some (ascii_of_N 13)
  | 116 => Some (ascii_of_N 9)
  | _ => None
  end%N.

Definition cons_char (c : ascii) (r : option (text * text))
    : option (text * text) :=
  match r with
  | Some (s, rest) => Some (c :: s, rest)
  | None => None
  end.

(** The characters of a string literal, after its opening quote, up to
    and including its closing quote. *)
Fixpoint parse_chars (s : text) : option (text * text) :=
  match s with
  | [] => None
  | c :: s1 =>
      let n := N_of_ascii c in
      if (n =? 34)%N then Some ([], s1)
      else if (n =? 92)%N then
        match s1 with
        | [] => None
        | e :: s2 =>
            if (N_of_ascii e =? 117)%N then
              match s2 with
              | h1 :: h2 :: h3 :: h4 :: s3 =>
                  match hex4 h1 h2 h3 h4 with
                  | Some u =>
                      if (u <? 256)%N
                      then cons_char (ascii_of_N u) (parse_chars s3)
                      else None
                  | None => None
                  end
              | _ => None
              end
            else
              match unescape e with
              | Some c' => cons_char c' (parse_chars s2)
              | None => None
              end
        end
      else if (n <? 32)%N then None
      else cons_char c (parse_chars s1)
  end.

Definition parse_string (s : text) : option (string * text) :=
  match parse_chars s with
  | Some (cs, r) => Some (string_of_list_ascii cs, r)
  | None => None
  end.

(** [s] starts with the characters of [w]; the rest is returned. *)
Fixpoint expect (w s : text) : option text :=
  match w with
  | [] => Some s
  | c :: w' =>
      match s with
      | c' :: s' => if Ascii.eqb c c' then expect w' s' else None
      | [] => None
      end
  end.

Definition parse_literal (w : string) (v : jsval) (s : text)
    : option (jsval * text) :=
  match expect (chars w) s with
  | Some r => Some (v, r)
  | None => None
  end.

(** The properties a parsed object ends up with: a repeated key keeps
    its first place and takes its last value. *)
Definition object_of (ms : list (string * jsval)) : object :=
  Obj.spread [] ms.

(** Recursive descent; [fuel] bounds the nesting of calls. A call is
    nested only after a character was consumed, and [parse] below supplies
    one more than the length of the text, which is enough for every text
    ([JSONFacts.parse_fuel_enough]). *)
Fixpoint parse_value (fuel : nat) (s : text) {struct fuel}
    : option (jsval * text) :=
  match fuel with
  | O => None
  | S fuel' =>
      match skip_ws s with
      | [] => None
      | c :: r =>
          let n := N_of_ascii c in
          if (n =? 123)%N then
            match skip_ws r with
            | [] => None
            | c' :: r' =>
                if (N_of_ascii c' =? 125)%N then Some (JObj [], r')
                else
                  match parse_members fuel' r with
                  | Some (ms, r'') => Some (JObj (object_of ms), r'')
                  | None => None
                  end
            end
          else if (n =? 91)%N then
            match skip_ws r with
            | [] => None
            | c' :: r' =>
                if (N_of_ascii c' =? 93)%N then Some (JArr [], r')
                else
                  match parse_elements fuel' r with
                  | Some (vs, r'') => Some (JArr vs, r'')
                  | None => None
                  end
            end
          else if (n =? 34)%N then
            match parse_string r with
            | Some (str, r') => Some (JStr str, r')
            | None => None
            end
          else if (n =? 110)%N then parse_literal "null" JNull (c :: r)
          else if (n =? 116)%N then parse_literal "true" (JBool true) (c :: r)
          else if (n =? 102)%N then parse_literal "false" (JBool false) (c :: r)
          else parse_number (c :: r)
      end
  end
with parse_elements (fuel : nat) (s : text) {struct fuel}
    : option (list jsval * text) :=
  match fuel with
  | O => None
  | S fuel' =>
      match parse_value fuel' s with
      | None => None
      | Some (v, r) =>
          match skip_ws r with
          | [] => None
          | c :: r' =>
              if (N_of_ascii c =? 44)%N then
                match parse_elements fuel' r' with
                | Some (vs, r'') => Some (v :: vs, r'')
                | None => None
                end
              else if (N_of_ascii c =? 93)%N then Some ([v], r')
              else None
          end
      end
  end
with parse_members (fuel : nat) (s : text) {struct fuel}
    : option (list (string * jsval) * text) :=
  match fuel with
  | O => None
  | S fuel' =>
      match skip_ws s with
      | [] => None
      | q :: r =>
          if negb (N_of_ascii q =? 34)%N then None
          else
            match parse_string r with
            | None => None
            | Some (k, r1) =>
                match skip_ws r1 with
                | [] => None
                | colon :: r2 =>
                    if negb (N_of_ascii colon =? 58)%N then None
                    else
                      match parse_value fuel' r2 with
                      | None => None
                      | Some (v, r3) =>
                          match skip_ws r3 with
                          | [] => None
                          | c :: r4 =>
                              if (N_of_ascii c =? 44)%N then
                                match parse_members fuel' r4 with
                                | Some (ms, r5) => Some ((k, v) :: ms, r5)
                                | None => None
                                end
                              else if (N_of_ascii c =? 125)%N
                              then Some ([(k, v)], r4)
                              else None
                          end
                      end
                end
            end
      end
  end.

(** [JSON.parse]: one value, then nothing but white space. [None] is
    the [SyntaxError]. *)
Definition parse (s : string) : option jsval :=
  let t := chars s in
  match parse_value (S (length t)) t with
  | Some (v, r) =>
      match skip_ws r with
      | [] => Some v
      | _ :: _ => None
      end
  | None => None
  end.

End JSON.

(** No key occurs twice. *)
Fixpoint distinct (ks : list string) : bool :=
  match ks with
  | [] => true
  | k :: ks' => negb (existsb (String.eqb k) ks') && distinct ks'
  end.

(** A value that [JSON.parse] can return: no [undefined] anywhere, only
    safe integers, and objects with distinct keys in property order. *)
Fixpoint is_json (v : jsval) : bool :=
  match v with
  | JUndefined => false
  | JNull | JBool _ | JStr _ => true
  | JNum n => JSON.safe_integer n
  | JArr l => forallb is_json l
  | JObj o =>
      distinct (map fst o) && Obj.ordered (map fst o)
      && forallb (fun kv => is_json (snd kv)) o
  end.

(** How deep the parser's calls go on the printed form of a value. *)
Fixpoint size (v : jsval) : nat :=
  match v with
  | JArr l => S (list_sum (map (fun e => S (size e)) l))
  | JObj o => S (list_sum (map (fun kv => S (size (snd kv))) o))
  | _ => 1%nat
  end.

(** ** Vocabulary of the statements about the printer and the parser *)

Module JSONAux.
Import Numeral JSON.

(** Nothing but white space. *)
Definition blank (s : text) : Prop := Forall (fun c => is_ws c = true) s.

(** What may follow a number literal without changing how it reads. *)
Definition ends_number (rest : text) : bool :=
  match rest with
  | [] => true
  | c :: _ =>
      match digit c with
      | Some _ => false
      | None => negb (continues_number rest)
      end
  end.

(** The first character of a printed number: a digit or the minus sign. *)
Definition number_start (c : ascii) : bool :=
  match digit c with
  | Some _ => true
  | None => (N_of_ascii c =? 45)%N
  end.

(** What the printer writes for an element of an array, and for a
    property of an object. *)
Definition element_text (indent : text) (e : jsval) : text :=
  match SerializeJSONProperty indent e with
  | Some t => t
  | None => chars "null"
  end.

Definition member_text (indent : text) (kv : string * jsval) : text :=
  QuoteJSONString (fst kv)
    ++ ":"%char :: " "%char :: element_text indent (snd kv).

Definition defined (v : jsval) : bool :=
  match v with JUndefined => false | _ => true end.

(** What the first character of a printed value never is: white space or
    a closing bracket. *)
Definition value_start (c : ascii) : bool :=
  negb (is_ws c) && negb (N_of_ascii c =? 93)%N && negb (N_of_ascii c =? 125)%N.

(** The parsers at fuel [fuel] are adequate: a result consumes at least one
    character, and is found again with any fuel that covers the characters
    consumed. *)
Definition adequate (fuel : nat) : Prop :=
  (forall s v r,
      parse_value fuel s = Some (v, r) ->
      (length r < length s)%nat
      /\ forall fuel', (length s - length r <= fuel')%nat ->
                        parse_value fuel' s = Some (v, r))
  /\ (forall s vs r,
        parse_elements fuel s = Some (vs, r) ->
        (length r < length s)%nat
        /\ forall fuel', (length s - length r <= fuel')%nat ->
                          parse_elements fuel' s = Some (vs, r))
  /\ (forall s ms r,
        parse_members fuel s = Some (ms, r) ->
        (length r < length s)%nat
        /\ forall fuel', (length s - length r <= fuel')%nat ->
                          parse_members fuel' s = Some (ms, r)).

(** The printed form of [v], at any indentation and followed by any text
    that cannot continue a number, is parsed back to [v] and that text. *)
Definition roundtrips (v : jsval) : Prop :=
  is_json v = true ->
  forall stepback t rest fuel,
    blank stepback ->
    SerializeJSONProperty stepback v = Some t ->
    ends_number rest = true ->
    (size v <= fuel)%nat ->
    parse_value fuel (t ++ rest) = Some (v, rest).

End JSONAux.

(** ** Operators of the language *)

Inductive error : Type :=
| ENOENT         (* a file-system error whose [code] is ['ENOENT'] *)
| SyntaxError    (* thrown by [JSON.parse] *)
| TypeError      (* a property of [null], a call of a non-function, ... *)
| Error_.        (* any other exception, such as json2csv's *)

Inductive outcome (A : Type) : Type :=
| Return (a : A)
| Throw (e : error).
Arguments Return {A} a.
Arguments Throw {A} e.

(** [a === b]. Two arrays or objects are equal only when they are the same
    allocation; every comparison in this program is between a value read
    from a file or a literal and a value of the request, which never are. *)
Definition strict_equals (a b : jsval) : bool :=
  match a, b with
  | JUndefined, JUndefined => true
  | JNull, JNull => true
  | JBool x, JBool y => Bool.eqb x y
  | JNum x, JNum y => Z.eqb x y
  | JStr x, JStr y => String.eqb x y
  | _, _ => false
  end.

(** [ToBoolean] *)
Definition truthy (v : jsval) : bool :=
  match v with
  | JUndefined | JNull => false
  | JBool b => b
  | JNum n => negb (Z.eqb n 0)
  | JStr s => negb (String.eqb s "")
  | JArr _ | JObj _ => true
  end.

(** [v.k]: an own property of an object; the length or an element of an
    array; the length or a character of a string; a [TypeError] on [null]
    and [undefined]; [undefined] otherwise. The methods that the
    prototypes supply are not values of the embedding; the program reads
    two names only, [email] and [length]. *)
Definition get_property (v : jsval) (k : string) : outcome jsval :=
  match v with
  | JUndefined | JNull => Throw TypeError
  | JObj o => Return (Obj.get k o)
  | JArr l =>
      Return (if String.eqb k "length" then JNum (Z.of_nat (length l))
              else match Obj.array_index k with
                   | Some i => nth (N.to_nat i) l JUndefined
                   | None => JUndefined
                   end)
  | JStr s =>
      Return (if String.eqb k "length" then JNum (Z.of_nat (String.length s))
              else match Obj.array_index k with
                   | Some i =>
                       match String.get (N.to_nat i) s with
                       | Some c => JStr (String c "")
                       | None => JUndefined
                       end
                   | None => JUndefined
                   end)
  | JBool _ | JNum _ => Return JUndefined
  end.

(** [Array.prototype.find]: the first element the predicate accepts, or
    [undefined]; an exception of the predicate ends the search. *)
Fixpoint find_in (pred : jsval -> outcome bool) (l : list jsval)
    : outcome jsval :=
  match l with
  | [] => Return JUndefined
  | x :: l' =>
      match pred x with
      | Throw e => Throw e
      | Return true => Return x
      | Return false => find_in pred l'
      end
  end.

(** [v.find(pred)]: only an array has the method. *)
Definition Array_find (pred : jsval -> outcome bool) (v : jsval)
    : outcome jsval :=
  match v with
  | JArr l => find_in pred l
  | _ => Throw TypeError
  end.

(** [v.push(x)], giving the array after the call. *)
Definition Array_push (v x : jsval) : outcome jsval :=
  match v with
  | JArr l => Return (JArr (l ++ [x]))
  | _ => Throw TypeError
  end.

(** ** The world: files, and a journal of what was done to them *)

Inductive effect : Type :=
| Wrote (path data : string)       (* [fs.writeFile] completed *)
| Formatted (records : jsval).     (* [new Parser().parse] was called *)

Record world : Type := World {
  files : gmap string string;
  journal : list effect
}.

Definition M (A : Type) : Type := world -> outcome A * world.

Definition ret {A} (a : A) : M A := fun w => (Return a, w).
Definition throw {A} (e : error) : M A := fun w => (Throw e, w).
Definition lift {A} (o : outcome A) : M A := fun w => (o, w).

Definition bind {A B} (m : M A) (k : A -> M B) : M B :=
  fun w =>
    match m w with
    | (Return a, w') => k a w'
    | (Throw e, w') => (Throw e, w')
    end.

(** [try { m } catch (error) { handler error }] *)
Definition try_catch {A} (m : M A) (handler : error -> M A) : M A :=
  fun w =>
    match m w with
    | (Return a, w') => (Return a, w')
    | (Throw e, w') => handler e w'
    end.

Notation "'const' x <- m ;; k" := (bind m (fun x => k))
  (at level 10, x name, m at level 99, k at level 200).
Notation "'await' m ;; k" := (bind m (fun _ => k))
  (at level 10, m at level 99, k at level 200).

Module fs.

Definition access (path : string) : M unit :=
  fun w =>
    match files w !! path with
    | Some _ => (Return tt, w)
    | None => (Throw ENOENT, w)
    end.

Definition readFile (path : string) : M string :=
  fun w =>
    match files w !! path with
    | Some data => (Return data, w)
    | None => (Throw ENOENT, w)
    end.

(** [data] is [None] when the caller passes [undefined], which
    [fs.writeFile] refuses with a [TypeError] before touching the file. *)
Definition writeFile (path : string) (data : option string) : M unit :=
  match data with
  | None => throw TypeError
  | Some d =>
      fun w =>
        (Return tt,
         {| files := <[path := d]> (files w);
            journal := journal w ++ [Wrote path d] |})
  end.

End fs.

Definition JSON_parse (data : string) : M jsval :=
  match JSON.parse data with
  | Some v => ret v
  | None => throw SyntaxError
  end.

(** ** [server.js] *)

Definition menuFilePath : string := "menu.json".
Definition ordersFilePath : string := "orders.json".
Definition reservationsFilePath : string := "reservations.json".
Definition customersFilePath : string := "customers.json".

Definition writeData (filePath : string) (data : jsval) : M unit :=
  fs.writeFile filePath (JSON.stringify data).

Definition readData (filePath : string) : M jsval :=
  try_catch
    (await fs.access filePath ;;
     const data <- fs.readFile filePath ;;
     if String.eqb data "" then ret (JArr [])
     else JSON_parse data)
    (fun error =>
       match error with
       | ENOENT => await writeData filePath (JArr []) ;; ret (JArr [])
       | _ => throw error
       end).

Inductive payload : Type :=
| Json (v : jsval)                          (* [res.json(v)] *)
| Text (s : string)                         (* [res.send(s)] *)
| Csv (attachment : string) (s : string).   (* [text/csv], as an attachment *)

Record response : Type := Response { status : Z; body : payload }.

Definition message (m : string) : payload := Json (JObj [("message", JStr m)]).

(** The two readings a handler takes from the clock: [Date.now()] and
    [new Date().toISOString()]. *)
Record clock : Type := Clock { Date_now : Z; Date_toISOString : string }.

(** [GET /] *)
Definition get_root : M response :=
  ret (Response 200 (Text "The Mom Chef API is running!")).

(** [GET /api/menu] *)
Definition get_menu : M response :=
  try_catch
    (const menuData <- readData menuFilePath ;;
     ret (Response 200 (Json menuData)))
    (fun _ => ret (Response 500 (message "Error loading menu"))).

(** [POST /api/signup] *)
Definition post_signup (now : clock) (req_body : object) : M response :=
  try_catch
    (let name := Obj.get "name" req_body in
     let email := Obj.get "email" req_body in
     let phone := Obj.get "phone" req_body in
     let street := Obj.get "street" req_body in
     let city := Obj.get "city" req_body in
     let state := Obj.get "state" req_body in
     let pincode := Obj.get "pincode" req_body in
     let dob := Obj.get "dob" req_body in
     let password := Obj.get "password" req_body in
     const customers <- readData customersFilePath ;;
     const existingCustomer <-
       lift (Array_find
               (fun customer =>
                  match get_property customer "email" with
                  | Return e => Return (strict_equals e email)
                  | Throw err => Throw err
                  end)
               customers) ;;
     if truthy existingCustomer then
       ret (Response 400
              (message "A customer with this email already exists."))
     else
       let newCustomer :=
         JObj [("id", JNum (Date_now now)); ("name", name);
               ("email", email); ("phone", phone); ("street", street);
               ("city", city); ("state", state); ("pincode", pincode);
               ("dob", dob);
               ("signupDate", JStr (Date_toISOString now))] in
       const customers <- lift (Array_push customers newCustomer) ;;
       await writeData customersFilePath customers ;;
       ret (Response 201
              (Json (JObj [("message",
                            JStr "Customer registered successfully!");
                           ("customer", newCustomer)]))))
    (fun _ => ret (Response 500 (message "Failed to register customer."))).

(** [POST /api/orders] *)
Definition post_orders (now : clock) (req_body : object) : M response :=
  try_catch
    (let newOrder :=
       JObj (Obj.spread [("id", JNum (Date_now now));
                         ("date", JStr (Date_toISOString now))]
                        req_body) in
     const orders <- readData ordersFilePath ;;
     const orders <- lift (Array_push orders newOrder) ;;
     await writeData ordersFilePath orders ;;
     ret (Response 201
            (Json (JObj [("message", JStr "Order received!");
                         ("order", newOrder)]))))
    (fun _ => ret (Response 500 (message "Failed to save order"))).

(** [POST /api/reservations] *)
Definition post_reservations (now : clock) (req_body : object) : M response :=
  try_catch
    (let newReservation :=
       JObj (Obj.spread [("id", JNum (Date_now now));
                         ("date", JStr (Date_toISOString now))]
                        req_body) in
     const reservations <- readData reservationsFilePath ;;
     const reservations <- lift (Array_push reservations newReservation) ;;
     await writeData reservationsFilePath reservations ;;
     ret (Response 201
            (Json (JObj [("message", JStr "Reservation received!");
                         ("reservation", newReservation)]))))
    (fun _ => ret (Response 500 (message "Failed to save reservation"))).

(** [POST /api/update-menu] *)
Definition post_update_menu (req_body : object) : M response :=
  let password := Obj.get "password" req_body in
  let menu := Obj.get "menu" req_body in
  if negb (strict_equals password (JStr "themomchef@123")) then
    ret (Response 401 (message "Unauthorized"))
  else
    try_catch
      (await writeData menuFilePath menu ;;
       ret (Response 200 (message "Menu updated successfully!")))
      (fun _ => ret (Response 500 (message "Failed to update menu"))).

(** [GET /api/customers] *)
Definition get_customers : M response :=
  try_catch
    (const customers <- readData customersFilePath ;;
     ret (Response 200 (Json customers)))
    (fun _ => ret (Response 500 (message "Error loading customers"))).

(** [new Parser().parse(records)] of json2csv, a library outside the
    repository: [format] is what it computes, [None] where it throws. *)
Definition Parser_parse (format : jsval -> option string) (records : jsval)
    : M string :=
  fun w =>
    let w' := {| files := files w;
                 journal := journal w ++ [Formatted records] |} in
    match format records with
    | Some csv => (Return csv, w')
    | None => (Throw Error_, w')
    end.

(** [GET /api/export-orders] *)
Definition get_export_orders (format : jsval -> option string) : M response :=
  try_catch
    (const orders <- readData ordersFilePath ;;
     const length <- lift (get_property orders "length") ;;
     if strict_equals length (JNum 0) then
       ret (Response 200 (Text "No orders to export."))
     else
       const csv <- Parser_parse format orders ;;
       ret (Response 200 (Csv "orders.csv" csv)))
    (fun _ => ret (Response 500 (message "Failed to export orders."))).

(** [GET /api/export-reservations] *)
Definition get_export_reservations (format : jsval -> option string)
    : M response :=
  try_catch
    (const reservations <- readData reservationsFilePath ;;
     const length <- lift (get_property reservations "length") ;;
     if strict_equals length (JNum 0) then
       ret (Response 200 (Text "No reservations to export."))
     else
       const csv <- Parser_parse format reservations ;;
       ret (Response 200 (Csv "reservations.csv" csv)))
    (fun _ => ret (Response 500 (message "Failed to export reservations."))).

(** [GET /api/export-customers] *)
Definition get_export_customers (format : jsval -> option string)
    : M response :=
  try_catch
    (const customers <- readData customersFilePath ;;
     const length <- lift (get_property customers "length") ;;
     if strict_equals length (JNum 0) then
       ret (Response 200 (Text "No customers to export."))
     else
       const csv <- Parser_parse format customers ;;
       ret (Response 200 (Csv "customers.csv" csv)))
    (fun _ => ret (Response 500 (message "Failed to export customers."))).

(** The collection a file holds, as the next request will see it. *)
Definition stored (filePath : string) (w : world) : outcome jsval :=
  fst (readData filePath w).

(** ** Vocabulary of the statements about the server *)

(** A record of a collection is an object. *)
Definition is_record (v : jsval) : bool :=
  match v with
  | JObj _ => true
  | _ => false
  end.

(** The record [customer] has the email [email], compared as the signup
    handler compares them. *)
Definition has_email (email customer : jsval) : bool :=
  match customer with
  | JObj o => strict_equals (Obj.get "email" o) email
  | _ => false
  end.

(** The test the signup handler gives to [find]:
    [customer => customer.email === email]. *)
Definition same_email (email customer : jsval) : outcome bool :=
  match get_property customer "email" with
  | Return e => Return (strict_equals e email)
  | Throw err => Throw err
  end.

(** The properties of an object that reach the file: the printer leaves
    out the ones whose value is [undefined]. *)
Definition persisted (o : object) : object :=
  List.filter (fun kv => JSONAux.defined (snd kv)) o.

(** A time value, as [Date.now()] returns: an integer number of
    milliseconds at most 8.64e15 away from the epoch. *)
Definition time_value (t : Z) : bool := (Z.abs t <=? 8640000000000000)%Z.

(** The record the signup handler builds from a request. *)
Definition newCustomer_of (now : clock) (req_body : object) : object :=
  [("id", JNum (Date_now now)); ("name", Obj.get "name" req_body);
   ("email", Obj.get "email" req_body); ("phone", Obj.get "phone" req_body);
   ("street", Obj.get "street" req_body); ("city", Obj.get "city" req_body);
   ("state", Obj.get "state" req_body);
   ("pincode", Obj.get "pincode" req_body); ("dob", Obj.get "dob" req_body);
   ("signupDate", JStr (Date_toISOString now))].

(** The record the order and reservation handlers build from a request. *)
Definition submitted_of (now : clock) (req_body : object) : object :=
  Obj.spread [("id", JNum (Date_now now));
              ("date", JStr (Date_toISOString now))] req_body.

(** No call of the formatter between two worlds: every [Formatted] entry of
    the later journal was already in the earlier one. *)
Definition no_new_formatting (w w' : world) : Prop :=
  forall records, In (Formatted records) (journal w') ->
                  In (Formatted records) (journal w).

(** ** Sample data *)

Definition empty_world : world := World ∅ [].

Definition noon : clock :=
  Clock 1700000000000 "2023-11-14T22:13:20.000Z".

Definition no_csv : jsval -> option string := fun _ => None.

(** ** Vocabulary of the further properties *)

(** [m] changes no file but the one at [path], and removes no file. *)
Definition touches_only {A : Type} (path : string) (m : M A) : Prop :=
  forall w q,
    (q <> path -> files (snd (m w)) !! q = files w !! q)
    /\ (is_Some (files w !! q) -> is_Some (files (snd (m w)) !! q)).

(** Whenever [m] returns a response, its status is one of [codes]. *)
Definition returns_only (codes : list Z) (m : M response) : Prop :=
  forall w r w', m w = (Return r, w') -> In (status r) codes.

(** [m] always returns a response, never an exception, and the status is
    one of [codes]. *)
Definition answers (codes : list Z) (m : M response) : Prop :=
  forall w, exists r, fst (m w) = Return r /\ In (status r) codes.

(** Two worlds in which every collection loads alike. *)
Definition same_collections (w1 w2 : world) : Prop :=
  forall q, stored q w1 = stored q w2.



Definition is_array (v : jsval) : bool :=
  match v with
  | JArr _ => true
  | _ => false
  end.

(** [customer.email] of a record. *)
Definition email_of (customer : jsval) : jsval :=
  match customer with
  | JObj o => Obj.get "email" o
  | _ => JUndefined
  end.

(** No two records have emails that [===] holds equal. *)
Fixpoint emails_distinct (customers : list jsval) : bool :=
  match customers with
  | [] => true
  | c :: customers' =>
      negb (existsb (has_email (email_of c)) customers')
      && emails_distinct customers'
  end.

(** Requests served one after the other, each with its own clock
    readings. *)
Fixpoint serve (handler : clock -> object -> M response)
    (requests : list (clock * object)) : M (list response) :=
  match requests with
  | [] => ret []
  | (now, req_body) :: requests' =>
      const r <- handler now req_body ;;
      const rs <- serve handler requests' ;;
      ret (r :: rs)
  end.

(** A request whose clock reading is a time value and whose body is JSON. *)
Definition well_formed (request : clock * object) : bool :=
  time_value (Date_now (fst request)) && is_json (JObj (snd request)).

(** The answer an order gets when it is saved. *)
Definition order_received (now : clock) (req_body : object) : response :=
  Response 201
    (Json (JObj [("message", JStr "Order received!");
                 ("order", JObj (submitted_of now req_body))])).

Definition reservation_received (now : clock) (req_body : object)
    : response :=
  Response 201
    (Json (JObj [("message", JStr "Reservation received!");
                 ("reservation", JObj (submitted_of now req_body))])).

(** * Proofs *)

Module JSONFacts.
Import Numeral JSON JSONAux.

(** *** White space *)

Lemma blank_gap (s : text) : blank s -> blank (s ++ gap).
Proof.
  intros H. apply Forall_app. split; [exact H|].
  repeat constructor.
Qed.

Lemma skip_ws_blank (pre s : text) : blank pre -> skip_ws (pre ++ s) = skip_ws s.
Proof.
  induction 1 as [|c pre Hc _ IH]; simpl; [reflexivity|].
  now rewrite Hc.
Qed.

Lemma skip_ws_newline (pre s : text) :
  blank pre -> skip_ws (newline :: pre ++ s) = skip_ws s.
Proof. intros H. simpl. now apply skip_ws_blank. Qed.

Lemma skip_ws_solid (c : ascii) (s : text) :
  is_ws c = false -> skip_ws (c :: s) = c :: s.
Proof. intros H. simpl. now rewrite H. Qed.

Lemma skip_ws_idem (s : text) : skip_ws (skip_ws s) = skip_ws s.
Proof.
  induction s as [|c s IH]; simpl; [reflexivity|].
  destruct (is_ws c) eqn:E; [exact IH|]. simpl. now rewrite E.
Qed.

(** The parser looks at its input only past the leading white space. *)
Lemma parse_value_skip (fuel : nat) (s : text) :
  parse_value fuel (skip_ws s) = parse_value fuel s.
Proof. destruct fuel; simpl; [reflexivity|]. now rewrite skip_ws_idem. Qed.

Lemma parse_value_blank (fuel : nat) (pre s : text) :
  blank pre -> parse_value fuel (pre ++ s) = parse_value fuel s.
Proof.
  intros H. rewrite <- (parse_value_skip fuel (pre ++ s)).
  rewrite skip_ws_blank by exact H. apply parse_value_skip.
Qed.

Lemma parse_elements_blank (fuel : nat) (pre s : text) :
  blank pre -> parse_elements fuel (pre ++ s) = parse_elements fuel s.
Proof.
  intros H. destruct fuel; simpl; [reflexivity|].
  now rewrite parse_value_blank.
Qed.

Lemma parse_members_blank (fuel : nat) (pre s : text) :
  blank pre -> parse_members fuel (pre ++ s) = parse_members fuel s.
Proof.
  intros H. destruct fuel; simpl; [reflexivity|].
  now rewrite skip_ws_blank.
Qed.

(** *** Strings *)

Lemma parse_chars_quote_char (c : ascii) (tail : text) :
  parse_chars (quote_char c ++ tail) = cons_char c (parse_chars tail).
Proof.
  destruct c as [[] [] [] [] [] [] [] []]; reflexivity.
Qed.

Lemma parse_chars_quote (s rest : text) :
  parse_chars (quote_chars s ++ quotation_mark :: rest) = Some (s, rest).
Proof.
  induction s as [|c s IH]; [reflexivity|].
  simpl quote_chars. rewrite <- app_assoc, parse_chars_quote_char, IH.
  reflexivity.
Qed.

Lemma parse_string_quote (s : string) (rest : text) :
  parse_string (quote_chars (chars s) ++ quotation_mark :: rest) = Some (s, rest).
Proof.
  unfold parse_string. rewrite parse_chars_quote.
  unfold chars. now rewrite string_of_list_ascii_of_string.
Qed.

(** *** Numbers *)

Lemma nzhead_no_zero (d : Decimal.uint) :
  match Decimal.nzhead d with Decimal.D0 _ => False | _ => True end.
Proof. induction d; simpl; auto. Qed.

Lemma canonical_unorm (d : Decimal.uint) : canonical (Decimal.unorm d) = true.
Proof.
  unfold Decimal.unorm. pose proof (nzhead_no_zero d) as H.
  destruct (Decimal.nzhead d); simpl; auto; contradiction.
Qed.

Lemma canonical_to_uint (p : positive) : canonical (Pos.to_uint p) = true.
Proof.
  pose proof (DecimalPos.Unsigned.to_of (Pos.to_uint p)) as H.
  rewrite DecimalPos.Unsigned.of_to in H. simpl in H.
  rewrite H. apply canonical_unorm.
Qed.

Lemma take_digits_digits (d : Decimal.uint) (rest : text) :
  ends_number rest = true -> take_digits (digits d ++ rest) = (d, rest).
Proof.
  intros Hrest.
  induction d as [|d IH|d IH|d IH|d IH|d IH|d IH|d IH|d IH|d IH|d IH];
    try (cbn [digits app]; change (take_digits (?c :: ?s))
           with (match digit c with
                 | Some D => let (d, r) := take_digits s in (D d, r)
                 | None => (Decimal.Nil, c :: s)
                 end);
         rewrite IH; reflexivity).
  simpl. destruct rest as [|c rest]; [reflexivity|].
  simpl in *. destruct (digit c); [discriminate|reflexivity].
Qed.

Lemma parse_int_digits (d : Decimal.uint) (rest : text) :
  canonical d = true -> ends_number rest = true ->
  parse_int (digits d ++ rest) = Some (d, rest).
Proof.
  intros Hd Hrest.
  destruct d as [|d|d|d|d|d|d|d|d|d|d]; try discriminate;
    try (change (parse_int (digits ?x ++ rest))
           with (Some (take_digits (digits x ++ rest)));
         now rewrite take_digits_digits).
  destruct d; try discriminate. reflexivity.
Qed.

Lemma digits_start (d : Decimal.uint) :
  canonical d = true ->
  exists c t, digits d = c :: t /\ digit c <> None.
Proof.
  destruct d; try discriminate; intros _; simpl; eexists _, _;
    (split; [reflexivity|discriminate]).
Qed.

Lemma canonical_to_int (n : Z) :
  match Z.to_int n with
  | Decimal.Pos d | Decimal.Neg d => canonical d = true
  end.
Proof. destruct n; simpl; auto using canonical_to_uint. Qed.

Lemma ends_number_continues (rest : text) :
  ends_number rest = true -> continues_number rest = false.
Proof.
  destruct rest as [|c rest]; [reflexivity|]. unfold ends_number.
  destruct (digit c); [discriminate|]. now destruct (continues_number _).
Qed.

Lemma parse_number_toString (n : Z) (rest : text) :
  safe_integer n = true -> ends_number rest = true ->
  parse_number (Number_toString n ++ rest) = Some (JNum n, rest).
Proof.
  intros Hsafe Hrest. unfold Number_toString.
  pose proof (canonical_to_int n) as Hc. pose proof (DecimalZ.of_to n) as Hn.
  destruct (Z.to_int n) as [d|d].
  - destruct (digits_start d Hc) as (c & t & Ht & Hdigit).
    unfold parse_number.
    replace (match digits d ++ rest with
             | [] => (false, digits d ++ rest)
             | c :: s' =>
                 if (N_of_ascii c =? 45)%N then (true, s')
                 else (false, digits d ++ rest)
             end) with (false, digits d ++ rest).
    + rewrite parse_int_digits by assumption.
      rewrite ends_number_continues by assumption. cbv zeta.
      now rewrite Hn, Hsafe.
    + rewrite Ht. simpl. destruct (N_of_ascii c =? 45)%N eqn:E; [|reflexivity].
      apply N.eqb_eq in E. exfalso. apply Hdigit. unfold digit. now rewrite E.
  - unfold parse_number. cbn [app].
    change (N_of_ascii "-" =? 45)%N with true. cbv iota beta.
    rewrite parse_int_digits by assumption.
    rewrite ends_number_continues by assumption. cbv zeta.
    now rewrite Hn, Hsafe.
Qed.

Lemma Number_toString_start (n : Z) :
  exists c t, Number_toString n = c :: t /\ number_start c = true.
Proof.
  unfold Number_toString. pose proof (canonical_to_int n) as Hc.
  destruct (Z.to_int n) as [d|d].
  - destruct (digits_start d Hc) as (c & t & Ht & Hdigit).
    exists c, t. split; [exact Ht|]. unfold number_start.
    now destruct (digit c).
  - eexists _, _. split; reflexivity.
Qed.

Lemma parse_value_number_start (fuel : nat) (c : ascii) (r : text) :
  number_start c = true ->
  parse_value (S fuel) (c :: r) = parse_number (c :: r).
Proof.
  destruct c as [[] [] [] [] [] [] [] []]; intros H;
    try discriminate H; reflexivity.
Qed.

Lemma parse_value_number (fuel : nat) (n : Z) (rest : text) :
  safe_integer n = true -> ends_number rest = true ->
  parse_value (S fuel) (Number_toString n ++ rest) = Some (JNum n, rest).
Proof.
  intros Hsafe Hrest. rewrite <- (parse_number_toString n rest Hsafe Hrest).
  destruct (Number_toString_start n) as (c & t & -> & Hc).
  now apply parse_value_number_start.
Qed.

(** *** The printer, with its inner loops named *)

Lemma serialize_defined (stepback : text) (v : jsval) :
  defined v = true -> exists t, SerializeJSONProperty stepback v = Some t.
Proof. destruct v as [| |[]| | | |]; simpl; intros H; try discriminate; eauto. Qed.

Lemma is_json_defined (v : jsval) : is_json v = true -> defined v = true.
Proof. now destruct v. Qed.

Lemma serialize_arr (stepback : text) (l : list jsval) :
  SerializeJSONProperty stepback (JArr l)
  = Some (wrap "["%char "]"%char stepback (stepback ++ gap)
            (map (element_text (stepback ++ gap)) l)).
Proof.
reflexivity. Qed.

Lemma serialize_obj (stepback : text) (o : object) :
  SerializeJSONProperty stepback (JObj o)
  = Some (wrap "{"%char "}"%char stepback (stepback ++ gap)
            (map (member_text (stepback ++ gap))
               (List.filter (fun kv => defined (snd kv)) o))).
Proof.
  cbn [SerializeJSONProperty]. apply f_equal, f_equal.
  induction o as [|[k e] o IH]; [reflexivity|].
  cbn [List.filter snd].
  destruct e as [| |[]| | | |]; cbn [defined map fst snd]; rewrite IH;
    reflexivity.
Qed.

Lemma filter_defined_json (o : object) :
  forallb (fun kv => is_json (snd kv)) o = true ->
  List.filter (fun kv => defined (snd kv)) o = o.
Proof.
  induction o as [|[k e] o IH]; [reflexivity|]. simpl.
  intros [He Ho]%andb_prop. rewrite (is_json_defined e He).
  now rewrite IH.
Qed.

(** *** One step of each parser *)

Lemma parse_elements_S (fuel : nat) (s : text) :
  parse_elements (S fuel) s
  = match parse_value fuel s with
    | None => None
    | Some (v, r) =>
        match skip_ws r with
        | [] => None
        | c :: r' =>
            if (N_of_ascii c =? 44)%N then
              match parse_elements fuel r' with
              | Some (vs, r'') => Some (v :: vs, r'')
              | None => None
              end
            else if (N_of_ascii c =? 93)%N then Some ([v], r')
            else None
        end
    end.
Proof. reflexivity. Qed.

Lemma parse_value_bracket (fuel : nat) (r : text) :
  (exists c r', skip_ws r = c :: r' /\ (N_of_ascii c =? 93)%N = false) ->
  parse_value (S fuel) ("["%char :: r)
  = match parse_elements fuel r with
    | Some (vs, r'') => Some (JArr vs, r'')
    | None => None
    end.
Proof.
  intros (c & r' & H & Hc).
  change (parse_value (S fuel) ("["%char :: r))
    with (match skip_ws r with
          | [] => None
          | c' :: r' =>
              if (N_of_ascii c' =? 93)%N then Some (JArr [], r')
              else match parse_elements fuel r with
                   | Some (vs, r'') => Some (JArr vs, r'')
                   | None => None
                   end
          end).
  now rewrite H, Hc.
Qed.

Lemma parse_value_brace (fuel : nat) (r : text) :
  (exists c r', skip_ws r = c :: r' /\ (N_of_ascii c =? 125)%N = false) ->
  parse_value (S fuel) ("{"%char :: r)
  = match parse_members fuel r with
    | Some (ms, r'') => Some (JObj (object_of ms), r'')
    | None => None
    end.
Proof.
  intros (c & r' & H & Hc).
  change (parse_value (S fuel) ("{"%char :: r))
    with (match skip_ws r with
          | [] => None
          | c' :: r' =>
              if (N_of_ascii c' =? 125)%N then Some (JObj [], r')
              else match parse_members fuel r with
                   | Some (ms, r'') => Some (JObj (object_of ms), r'')
                   | None => None
                   end
          end).
  now rewrite H, Hc.
Qed.

Lemma parse_value_quote (fuel : nat) (r : text) :
  parse_value (S fuel) (quotation_mark :: r)
  = match parse_string r with
    | Some (str, r') => Some (JStr str, r')
    | None => None
    end.
Proof. reflexivity. Qed.

Lemma parse_members_quote (fuel : nat) (r : text) :
  parse_members (S fuel) (quotation_mark :: r)
  = match parse_string r with
    | None => None
    | Some (k, r1) =>
        match skip_ws r1 with
        | [] => None
        | colon :: r2 =>
            if negb (N_of_ascii colon =? 58)%N then None
            else
              match parse_value fuel r2 with
              | None => None
              | Some (v, r3) =>
                  match skip_ws r3 with
                  | [] => None
                  | c :: r4 =>
                      if (N_of_ascii c =? 44)%N then
                        match parse_members fuel r4 with
                        | Some (ms, r5) => Some ((k, v) :: ms, r5)
                        | None => None
                        end
                      else if (N_of_ascii c =? 125)%N
                      then Some ([(k, v)], r4)
                      else None
                  end
              end
        end
    end.
Proof. reflexivity. Qed.

(** *** The first character of a printed value *)

Lemma number_start_value_start (c : ascii) :
  number_start c = true -> value_start c = true.
Proof.
  destruct c as [[] [] [] [] [] [] [] []]; intros H;
    try discriminate H; reflexivity.
Qed.

Lemma serialize_start (stepback : text) (v : jsval) (t : text) :
  SerializeJSONProperty stepback v = Some t ->
  exists c t', t = c :: t' /\ value_start c = true.
Proof.
  destruct v as [| |[]|n|s|l|o].
  - discriminate.
  - intros [= <-]. now eexists _, _.
  - intros [= <-]. now eexists _, _.
  - intros [= <-]. now eexists _, _.
  - intros [= <-]. destruct (Number_toString_start n) as (c & t' & -> & Hc).
    exists c, t'. auto using number_start_value_start.
  - intros [= <-]. now eexists _, _.
  - rewrite serialize_arr. intros [= <-].
    destruct (map _ l); now eexists _, _.
  - rewrite serialize_obj. intros [= <-].
    destruct (map _ _); now eexists _, _.
Qed.

Lemma value_start_solid (c : ascii) (s : text) :
  value_start c = true -> skip_ws (c :: s) = c :: s.
Proof.
  intros H. apply skip_ws_solid. unfold value_start in H.
  now destruct (is_ws c).
Qed.

(** *** Printing then parsing *)

Lemma element_text_some (indent : text) (e : jsval) (t : text) :
  SerializeJSONProperty indent e = Some t -> element_text indent e = t.
Proof. unfold element_text. now intros ->. Qed.

Lemma join_cons (sep p : text) (ps : list text) :
  join sep (p :: ps)
  = match ps with [] => p | _ :: _ => p ++ sep ++ join sep ps end.
Proof. reflexivity. Qed.

Lemma roundtrips_newline (e : jsval) (indent t r : text) (fuel : nat) :
  roundtrips e -> is_json e = true -> blank indent ->
  SerializeJSONProperty indent e = Some t -> (size e <= fuel)%nat ->
  parse_value fuel (t ++ newline :: r) = Some (e, newline :: r).
Proof. intros He Hj Hi Ht Hf. now apply (He Hj indent). Qed.

Lemma roundtrips_comma (e : jsval) (indent t r : text) (fuel : nat) :
  roundtrips e -> is_json e = true -> blank indent ->
  SerializeJSONProperty indent e = Some t -> (size e <= fuel)%nat ->
  parse_value fuel (t ++ ","%char :: r) = Some (e, ","%char :: r).
Proof. intros He Hj Hi Ht Hf. now apply (He Hj indent). Qed.

Lemma parse_elements_join (l : list jsval) :
  Forall roundtrips l -> forallb is_json l = true -> l <> [] ->
  forall indent stepback pre rest fuel,
    blank indent -> blank stepback -> blank pre ->
    (list_sum (map (fun e => S (size e)) l) <= fuel)%nat ->
    parse_elements fuel
      (pre ++ join (","%char :: newline :: indent)
                (map (element_text indent) l)
           ++ newline :: stepback ++ "]"%char :: rest)
    = Some (l, rest).
Proof.
  induction 1 as [|e l He Hl IH]; [congruence|].
  intros Hjson _ indent stepback pre rest fuel Hi Hs Hp Hfuel.
  cbn [forallb] in Hjson. apply andb_prop in Hjson as [Hje Hjl].
  destruct (serialize_defined indent e (is_json_defined e Hje)) as [t Ht].
  cbn [map list_sum fold_right] in Hfuel.
  destruct fuel as [|fuel]; [lia|].
  rewrite parse_elements_S, parse_value_blank by assumption.
  cbn [map]. rewrite join_cons, (element_text_some _ _ _ Ht).
  destruct l as [|e2 l2].
  - cbn [map].
    rewrite (roundtrips_newline e indent t _ fuel He Hje Hi Ht) by lia.
    rewrite skip_ws_newline by assumption.
    reflexivity.
  - cbn [map]. rewrite <- !app_assoc. cbn [app].
    rewrite (roundtrips_comma e indent t _ fuel He Hje Hi Ht) by lia.
    rewrite skip_ws_solid by reflexivity.
    change (N_of_ascii ","%char =? 44)%N with true. cbv iota.
    change (newline :: indent ++ ?x) with ((newline :: indent) ++ x).
    change (element_text indent e2 :: map (element_text indent) l2)
      with (map (element_text indent) (e2 :: l2)).
    rewrite (IH Hjl ltac:(discriminate) indent stepback (newline :: indent)
               rest fuel Hi Hs).
    + reflexivity.
    + now constructor.
    + cbn [map list_sum fold_right] in *. lia.
Qed.

Lemma parse_members_join (o : object) :
  Forall (fun kv => roundtrips (snd kv)) o ->
  forallb (fun kv => is_json (snd kv)) o = true -> o <> [] ->
  forall indent stepback pre rest fuel,
    blank indent -> blank stepback -> blank pre ->
    (list_sum (map (fun kv => S (size (snd kv))) o) <= fuel)%nat ->
    parse_members fuel
      (pre ++ join (","%char :: newline :: indent)
                (map (member_text indent) o)
           ++ newline :: stepback ++ "}"%char :: rest)
    = Some (o, rest).
Proof.
  induction 1 as [|[k e] o He Ho IH]; [congruence|].
  intros Hjson _ indent stepback pre rest fuel Hi Hs Hp Hfuel.
  cbn [forallb snd] in Hjson. apply andb_prop in Hjson as [Hje Hjo].
  cbn [snd] in He.
  destruct (serialize_defined indent e (is_json_defined e Hje)) as [t Ht].
  cbn [map list_sum fold_right snd] in Hfuel.
  destruct fuel as [|fuel]; [lia|].
  rewrite parse_members_blank by assumption.
  cbn [map]. rewrite join_cons.
  assert (Hcolon : blank [" "%char]) by (repeat constructor).
  destruct o as [|kv2 o2]; cbn [map]; unfold member_text at 1;
    cbn [fst snd]; rewrite (element_text_some _ _ _ Ht);
    unfold QuoteJSONString at 1; rewrite <- !app_assoc; cbn [app];
    rewrite <- ?app_assoc; cbn [app];
    rewrite parse_members_quote, parse_string_quote;
    rewrite skip_ws_solid by reflexivity;
    change (negb (N_of_ascii ":"%char =? 58)%N) with false; cbv iota;
    change (" "%char :: t ++ ?x) with ([" "%char] ++ t ++ x);
    rewrite parse_value_blank by assumption.
  - rewrite (roundtrips_newline e indent t _ fuel He Hje Hi Ht) by lia.
    rewrite skip_ws_newline by assumption.
    reflexivity.
  - rewrite (roundtrips_comma e indent t _ fuel He Hje Hi Ht) by lia.
    rewrite skip_ws_solid by reflexivity.
    change (N_of_ascii ","%char =? 44)%N with true. cbv iota.
    change (newline :: indent ++ ?x) with ((newline :: indent) ++ x).
    change (member_text indent kv2 :: map (member_text indent) o2)
      with (map (member_text indent) (kv2 :: o2)).
    rewrite (IH Hjo ltac:(discriminate) indent stepback (newline :: indent)
               rest fuel Hi Hs).
    + reflexivity.
    + now constructor.
    + cbn [map list_sum fold_right snd] in *. lia.
Qed.

(** *** Property order *)

Lemma distinct_cons (k : string) (ks : list string) :
  distinct (k :: ks) = true <-> ~ In k ks /\ distinct ks = true.
Proof.
  cbn [distinct]. rewrite andb_true_iff, negb_true_iff.
  split; intros [Hk Hks]; split; try assumption.
  - intros Hin. assert (existsb (String.eqb k) ks = true) as E; [|congruence].
    apply existsb_exists. exists k. split; [exact Hin|apply String.eqb_refl].
  - destruct (existsb (String.eqb k) ks) eqn:E; [|reflexivity].
    apply existsb_exists in E as (k' & Hin & ->%String.eqb_eq). contradiction.
Qed.

Lemma digit_digits (c : ascii) (D : Decimal.uint -> Decimal.uint) :
  digit c = Some D -> forall d, digits (D d) = c :: digits d.
Proof.
  destruct c as [[] [] [] [] [] [] [] []]; cbn; intros H;
    try discriminate H; injection H as <-; reflexivity.
Qed.

Lemma digits_take_digits (s : text) (d : Decimal.uint) :
  take_digits s = (d, []) -> digits d = s.
Proof.
  revert d. induction s as [|c s IH]; intros d; cbn [take_digits].
  - now intros [= <-].
  - destruct (digit c) as [D|] eqn:E; [|discriminate].
    destruct (take_digits s) as [d' r]. intros [= <- ->].
    rewrite (digit_digits c D E). now rewrite (IH d').
Qed.

Lemma canonical_unorm_id (d : Decimal.uint) :
  canonical d = true -> Decimal.unorm d = d.
Proof.
  destruct d as [|d|d|d|d|d|d|d|d|d|d]; try discriminate; try reflexivity.
  destruct d; try discriminate. reflexivity.
Qed.

Lemma array_index_numeral (k : string) (i : N) :
  Obj.array_index k = Some i ->
  k = string_of_list_ascii (digits (N.to_uint i)).
Proof.
  unfold Obj.array_index.
  destruct (take_digits (list_ascii_of_string k)) as [d [|c r]] eqn:E;
    [|discriminate].
  destruct (canonical d) eqn:Hd; [|discriminate]. cbv zeta.
  destruct (N.of_uint d <? 4294967295)%N; [|discriminate]. intros [= <-].
  rewrite DecimalN.Unsigned.to_of, (canonical_unorm_id d Hd).
  rewrite (digits_take_digits _ _ E).
  now rewrite string_of_list_ascii_of_string.
Qed.

Lemma array_index_inj (k k' : string) (i : N) :
  Obj.array_index k = Some i -> Obj.array_index k' = Some i -> k = k'.
Proof.
  intros H%array_index_numeral H'%array_index_numeral. congruence.
Qed.

Lemma precedes_before (k k' : string) :
  Obj.precedes k k' = true -> Obj.before k k' = true.
Proof. unfold Obj.precedes. now destruct (Obj.array_index k). Qed.

Lemma precedes_trans (k k' k'' : string) :
  Obj.precedes k k' = true -> Obj.before k' k'' = true ->
  Obj.precedes k k'' = true.
Proof.
  unfold Obj.precedes, Obj.before.
  destruct (Obj.array_index k) as [i|]; [|discriminate].
  destruct (Obj.array_index k') as [j|], (Obj.array_index k'') as [m|];
    try discriminate; try reflexivity.
  intros Hij%N.ltb_lt Hjm%N.ltb_lt. apply N.ltb_lt. lia.
Qed.

Lemma precedes_irrefl (k : string) : Obj.precedes k k = false.
Proof.
  unfold Obj.precedes, Obj.before.
  destruct (Obj.array_index k); [apply N.ltb_irrefl|reflexivity].
Qed.

Lemma before_not_precedes (k k' : string) :
  Obj.before k' k = true -> Obj.precedes k k' = false.
Proof.
  unfold Obj.precedes, Obj.before.
  destruct (Obj.array_index k) as [i|], (Obj.array_index k') as [j|];
    try discriminate; try reflexivity.
  intros H%N.ltb_lt. apply N.ltb_ge. lia.
Qed.

Lemma not_precedes_before (k k' : string) :
  k <> k' -> Obj.precedes k k' = false -> Obj.before k' k = true.
Proof.
  unfold Obj.precedes, Obj.before. intros Hne.
  destruct (Obj.array_index k) as [i|] eqn:Ei,
           (Obj.array_index k') as [j|] eqn:Ej;
    try discriminate; try reflexivity.
  intros H%N.ltb_ge. apply N.ltb_lt.
  assert (i <> j) by (intros ->; apply Hne; eauto using array_index_inj).
  lia.
Qed.

Lemma ordered_cons (k : string) (ks : list string) :
  Obj.ordered (k :: ks) = true
  <-> (forall k', In k' ks -> Obj.before k k' = true)
      /\ Obj.ordered ks = true.
Proof. cbn [Obj.ordered]. now rewrite andb_true_iff, forallb_forall. Qed.

Lemma ordered_app_cons (l : list string) (k : string) (r : list string) :
  Obj.ordered (l ++ k :: r) = true ->
  forall k', In k' l -> Obj.before k' k = true.
Proof.
  induction l as [|k1 l IH]; [now intros _ k' []|].
  cbn [app]. intros [H1 Hl]%ordered_cons k' [<-|Hin].
  - apply H1. apply in_or_app. right. now left.
  - now apply IH.
Qed.

Lemma set_fresh (k : string) (v : jsval) (o : object) :
  ~ In k (map fst o) ->
  (forall k', In k' (map fst o) -> Obj.before k' k = true) ->
  Obj.set k v o = o ++ [(k, v)].
Proof.
  induction o as [|[k' v'] o IH]; [reflexivity|]. cbn [map fst In Obj.set].
  intros Hk Hbefore. destruct (String.eqb_spec k k') as [->|_].
  - exfalso. apply Hk. now left.
  - rewrite before_not_precedes by (apply Hbefore; now left).
    cbn [app]. rewrite IH; [reflexivity| |]; intuition.
Qed.

Lemma spread_distinct (ms acc : object) :
  distinct (map fst (acc ++ ms)) = true ->
  Obj.ordered (map fst (acc ++ ms)) = true ->
  Obj.spread acc ms = acc ++ ms.
Proof.
  revert acc. induction ms as [|[k v] ms IH]; intros acc Hd Ho.
  - unfold Obj.spread. cbn [fold_left]. now rewrite app_nil_r.
  - unfold Obj.spread in *. cbn [fold_left fst snd].
    assert (Hfresh : ~ In k (map fst acc)).
    { clear IH Ho. induction acc as [|[k' v'] acc IHacc]; [now intros []|].
      cbn [app map fst] in Hd. apply distinct_cons in Hd as [Hk' Hd].
      cbn [map fst In]. intros [Heq|Hin]; [subst k'|now apply IHacc].
      apply Hk'. rewrite map_app. apply in_or_app. right. now left. }
    rewrite set_fresh; [|exact Hfresh|].
    + rewrite IH; rewrite <- app_assoc; [reflexivity|exact Hd|exact Ho].
    + rewrite map_app in Ho. cbn [map fst] in Ho.
      exact (ordered_app_cons _ _ _ Ho).
Qed.

Lemma object_of_distinct (o : object) :
  distinct (map fst o) = true -> Obj.ordered (map fst o) = true ->
  object_of o = o.
Proof. intros Hd Ho. unfold object_of. now rewrite spread_distinct. Qed.

(** *** Every JSON value is read back from its printed form *)

Lemma head_skip_ws (pre t rest : text) (c : ascii) (t' : text) :
  blank pre -> t = c :: t' -> value_start c = true ->
  skip_ws (pre ++ t ++ rest) = c :: t' ++ rest.
Proof.
  intros Hpre -> Hc. rewrite skip_ws_blank by exact Hpre.
  now apply value_start_solid.
Qed.

Lemma join_head (sep p : text) (ps : list text) :
  exists tail, join sep (p :: ps) = p ++ tail.
Proof.
  rewrite join_cons. destruct ps; [exists []; now rewrite app_nil_r|].
  now eexists.
Qed.

Lemma serialize_roundtrips (v : jsval) : roundtrips v.
Proof.
  induction v as [| |b|n|s|l IH|o IH] using jsval_ind;
    intros Hjson stepback t rest fuel Hs Ht Hrest Hfuel;
    (destruct fuel as [|fuel]; [cbn [size] in Hfuel; lia|]).
  - discriminate.
  - injection Ht as <-. reflexivity.
  - destruct b; injection Ht as <-; reflexivity.
  - injection Ht as <-. now apply parse_value_number.
  - injection Ht as <-. unfold QuoteJSONString.
    rewrite <- app_comm_cons, <- app_assoc. cbn [app].
    now rewrite parse_value_quote, parse_string_quote.
  - rewrite serialize_arr in Ht. injection Ht as <-.
    destruct l as [|e l]; [reflexivity|].
    cbn [is_json] in Hjson. cbn [size] in Hfuel.
    assert (Hi : blank (stepback ++ gap)) by now apply blank_gap.
    remember (stepback ++ gap) as indent eqn:Eindent. clear Eindent.
    pose proof Hjson as [He _]%andb_prop.
    destruct (serialize_defined indent e (is_json_defined e He)) as [te Hte].
    destruct (serialize_start _ _ _ Hte) as (c & te' & -> & Hc).
    unfold wrap. cbn [map].
    set (parts := element_text indent e :: _).
    rewrite <- app_comm_cons.
    repeat (progress (rewrite <- ?app_assoc; cbn [app])).
    change (newline :: indent ++ ?x) with ((newline :: indent) ++ x).
    assert (Hpre : blank (newline :: indent)) by now constructor.
    rewrite parse_value_bracket.
    2:{ subst parts.
        destruct (join_head (","%char :: newline :: indent)
                    (element_text indent e)
                    (map (element_text indent) l)) as [tail ->].
        rewrite (element_text_some _ _ _ Hte). rewrite <- app_assoc.
        eexists _, _. split.
        - apply head_skip_ws; [exact Hpre|reflexivity|exact Hc].
        - unfold value_start in Hc.
          apply andb_prop in Hc as [[_ Hc]%andb_prop _].
          now apply negb_true_iff in Hc. }
    subst parts.
    change (element_text indent e :: map (element_text indent) l)
      with (map (element_text indent) (e :: l)).
    rewrite (parse_elements_join (e :: l) IH Hjson ltac:(discriminate)
               indent stepback (newline :: indent)
               rest fuel Hi Hs Hpre); [reflexivity|lia].
  - rewrite serialize_obj in Ht. injection Ht as <-.
    cbn [is_json] in Hjson. apply andb_prop in Hjson as [Hkeys Hvals].
    rewrite (filter_defined_json o Hvals).
    destruct o as [|[k e] o]; [reflexivity|].
    cbn [size] in Hfuel.
    assert (Hi : blank (stepback ++ gap)) by now apply blank_gap.
    remember (stepback ++ gap) as indent eqn:Eindent. clear Eindent.
    unfold wrap. cbn [map].
    set (parts := member_text indent (k, e) :: _).
    rewrite <- app_comm_cons.
    repeat (progress (rewrite <- ?app_assoc; cbn [app])).
    change (newline :: indent ++ ?x) with ((newline :: indent) ++ x).
    assert (Hpre : blank (newline :: indent)) by now constructor.
    rewrite parse_value_brace.
    2:{ subst parts.
        destruct (join_head (","%char :: newline :: indent)
                    (member_text indent (k, e))
                    (map (member_text indent) o)) as [tail ->].
        unfold member_text, QuoteJSONString. cbn [fst snd].
        rewrite <- !app_assoc.
        eexists _, _. split.
        - apply head_skip_ws; [exact Hpre|reflexivity|reflexivity].
        - reflexivity. }
    subst parts.
    change (member_text indent (k, e) :: map (member_text indent) o)
      with (map (member_text indent) ((k, e) :: o)).
    rewrite (parse_members_join ((k, e) :: o) IH Hvals ltac:(discriminate)
               indent stepback (newline :: indent)
               rest fuel Hi Hs Hpre); [|lia].
    apply andb_prop in Hkeys as [Hd Ho]. now rewrite object_of_distinct.
Qed.

(** *** The printed form is long enough to pay for its own parsing *)

Lemma join_length (sep : text) (parts : list text) :
  (1 <= length sep)%nat ->
  (list_sum (map (fun p => S (length p)) parts)
   <= S (length (join sep parts)))%nat.
Proof.
  intros Hsep. induction parts as [|p ps IH]; [cbn; lia|].
  rewrite join_cons. cbn [map list_sum fold_right].
  destruct ps as [|p' ps]; [cbn; lia|].
  rewrite !length_app. unfold list_sum in *. lia.
Qed.

Lemma wrap_length (open close : ascii) (stepback indent : text)
    (parts : list text) :
  (S (list_sum (map (fun p => S (length p)) parts))
   <= length (wrap open close stepback indent parts))%nat.
Proof.
  unfold wrap. destruct parts as [|p ps]; [cbn; lia|].
  pose proof (join_length (","%char :: newline :: indent) (p :: ps)
                ltac:(cbn; lia)) as H.
  cbn [length]. rewrite !length_app. cbn [length]. lia.
Qed.

Lemma size_le_length (v : jsval) :
  is_json v = true ->
  forall stepback t,
    SerializeJSONProperty stepback v = Some t -> (size v <= length t)%nat.
Proof.
  induction v as [| |b|n|s|l IH|o IH] using jsval_ind;
    intros Hjson stepback t Ht.
  - discriminate.
  - injection Ht as <-. cbn. lia.
  - destruct b; injection Ht as <-; cbn; lia.
  - destruct (serialize_start _ _ _ Ht) as (c & t' & -> & _). cbn. lia.
  - injection Ht as <-. cbn. lia.
  - rewrite serialize_arr in Ht. injection Ht as <-.
    cbn [size is_json] in *.
    etransitivity; [|apply wrap_length]. apply le_n_S.
    rewrite map_map.
    induction IH as [|e l He _ IHl]; [cbn; lia|].
    apply andb_prop in Hjson as [Hje Hjl].
    cbn [map list_sum fold_right]. specialize (IHl Hjl).
    destruct (serialize_defined (stepback ++ gap) e (is_json_defined e Hje))
      as [te Hte].
    rewrite (element_text_some _ _ _ Hte).
    specialize (He Hje _ _ Hte). unfold list_sum in *. lia.
  - rewrite serialize_obj in Ht. injection Ht as <-.
    cbn [size is_json] in *. apply andb_prop in Hjson as [_ Hjson].
    rewrite (filter_defined_json o Hjson).
    etransitivity; [|apply wrap_length]. apply le_n_S.
    rewrite map_map.
    induction IH as [|[k e] o He _ IHo]; [cbn; lia|].
    cbn [forallb snd] in Hjson. apply andb_prop in Hjson as [Hje Hjo].
    cbn [map list_sum fold_right snd]. specialize (IHo Hjo).
    destruct (serialize_defined (stepback ++ gap) e (is_json_defined e Hje))
      as [te Hte].
    unfold member_text at 1. cbn [fst snd].
    rewrite (element_text_some _ _ _ Hte), length_app. cbn [length].
    specialize (He Hje _ _ Hte). unfold list_sum in *. cbn [snd] in *. lia.
Qed.

(** [JSON.parse(JSON.stringify(v, null, 2))] is [v] again. *)
Lemma parse_stringify (v : jsval) :
  is_json v = true ->
  exists s, stringify v = Some s /\ parse s = Some v.
Proof.
  intros Hjson.
  destruct (serialize_defined [] v (is_json_defined v Hjson)) as [t Ht].
  exists (string_of_list_ascii t). unfold stringify, parse, chars.
  rewrite Ht. split; [reflexivity|].
  rewrite list_ascii_of_string_of_list_ascii.
  rewrite <- (app_nil_r t) at 2.
  rewrite (serialize_roundtrips v Hjson [] t [] (S (length t))
             ltac:(constructor) Ht eq_refl).
  - reflexivity.
  - pose proof (size_le_length v Hjson [] t Ht). lia.
Qed.

(** The printed form is never the empty text. *)
Lemma stringify_nonempty (v : jsval) (s : string) :
  stringify v = Some s -> s <> "".
Proof.
  unfold stringify.
  destruct (SerializeJSONProperty [] v) as [t|] eqn:Ht; [|discriminate].
  destruct (serialize_start _ _ _ Ht) as (c & t' & -> & _).
  now intros [= <-].
Qed.

(** *** What the parser returns is a JSON value *)

Lemma set_keys (k : string) (v : jsval) (o : object) (k' : string) :
  In k' (map fst (Obj.set k v o)) -> In k' (map fst o) \/ k' = k.
Proof.
  induction o as [|[k1 v1] o IH]; cbn [Obj.set map fst In].
  - intros [<-|[]]. now right.
  - destruct (String.eqb_spec k k1) as [->|_]; cbn [map fst In]; [tauto|].
    destruct (Obj.precedes k k1); cbn [map fst In]; [intuition auto|].
    intros [<-|Hin]; [tauto|]. apply IH in Hin. tauto.
Qed.

(** Setting a property keeps the keys distinct and in property order. *)
Lemma set_keys_wf (k : string) (v : jsval) (o : object) :
  distinct (map fst o) = true -> Obj.ordered (map fst o) = true ->
  distinct (map fst (Obj.set k v o)) = true
  /\ Obj.ordered (map fst (Obj.set k v o)) = true.
Proof.
  induction o as [|[k1 v1] o IH]; [now split|].
  cbn [Obj.set map fst].
  intros [Hk1 Hd]%distinct_cons Ho. pose proof Ho as [Hb1 Ho']%ordered_cons.
  destruct (String.eqb_spec k k1) as [->|Hne]; cbn [map fst].
  - split; [now apply distinct_cons|exact Ho].
  - destruct (Obj.precedes k k1) eqn:Hp; cbn [map fst].
    + assert (Hall : forall k', In k' (k1 :: map fst o) ->
                                Obj.precedes k k' = true).
      { intros k' [<-|Hin]; [exact Hp|].
        apply (precedes_trans k k1 k' Hp). now apply Hb1. }
      split.
      * apply distinct_cons. split; [|now apply distinct_cons].
        intros Hin. apply Hall in Hin. now rewrite precedes_irrefl in Hin.
      * apply ordered_cons. split; [|exact Ho].
        intros k' Hin. now apply precedes_before, Hall.
    + destruct (IH Hd Ho') as [IHd IHo]. split.
      * apply distinct_cons. split; [|exact IHd].
        intros [Hin| ->]%set_keys; [contradiction|congruence].
      * apply ordered_cons. split; [|exact IHo].
        intros k' [Hin| ->]%set_keys; [now apply Hb1|].
        now apply not_precedes_before.
Qed.

Lemma set_values (k : string) (v : jsval) (o : object) :
  is_json v = true ->
  forallb (fun kv => is_json (snd kv)) o = true ->
  forallb (fun kv => is_json (snd kv)) (Obj.set k v o) = true.
Proof.
  intros Hv. induction o as [|[k1 v1] o IH]; cbn [Obj.set forallb snd].
  - now rewrite Hv.
  - intros [H1 Ho]%andb_prop.
    destruct (String.eqb k k1); cbn [forallb snd].
    + now rewrite Hv, Ho.
    + destruct (Obj.precedes k k1); cbn [forallb snd].
      * now rewrite Hv, H1, Ho.
      * now rewrite H1, IH.
Qed.

Lemma is_json_obj (o : object) :
  is_json (JObj o) = true
  <-> distinct (map fst o) = true /\ Obj.ordered (map fst o) = true
      /\ forallb (fun kv => is_json (snd kv)) o = true.
Proof. cbn [is_json]. rewrite !andb_true_iff. tauto. Qed.

Lemma spread_json (source target : object) :
  is_json (JObj target) = true ->
  forallb (fun kv => is_json (snd kv)) source = true ->
  is_json (JObj (Obj.spread target source)) = true.
Proof.
  revert target. unfold Obj.spread.
  induction source as [|[k v] source IH]; intros target Ht Hs; [exact Ht|].
  cbn [forallb snd] in Hs. apply andb_prop in Hs as [Hv Hs].
  cbn [fold_left fst snd]. apply IH; [|exact Hs].
  apply is_json_obj in Ht as (Hd & Ho & Hvals). apply is_json_obj.
  destruct (set_keys_wf k v target Hd Ho) as [Hd' Ho'].
  auto using set_values.
Qed.

Ltac split_match H :=
  repeat match type of H with
    | context [match ?x with _ => _ end] =>
        let E := fresh "E" in destruct x eqn:E; try discriminate H
    end.

Lemma parse_value_json (fuel : nat) :
  (forall s v r, parse_value fuel s = Some (v, r) -> is_json v = true)
  /\ (forall s vs r,
        parse_elements fuel s = Some (vs, r) -> forallb is_json vs = true)
  /\ (forall s ms r,
        parse_members fuel s = Some (ms, r) ->
        forallb (fun kv => is_json (snd kv)) ms = true).
Proof.
  induction fuel as [|fuel (IHv & IHe & IHm)];
    [repeat split; discriminate|].
  split; [|split].
  - intros s v r H. cbn [parse_value] in H.
    unfold parse_literal, parse_number, parse_string in H. cbv zeta in H.
    split_match H; injection H as <- <-; try reflexivity;
      try (cbn [is_json]; assumption).
    + apply spread_json; [reflexivity|]. eapply IHm; eassumption.
    + cbn [is_json]. eapply IHe; eassumption.
  - intros s vs r H. rewrite parse_elements_S in H.
    split_match H; injection H as <- <-; cbn [forallb].
    + erewrite IHv by eassumption. eapply IHe; eassumption.
    + now erewrite IHv by eassumption.
  - intros s ms r H. cbn [parse_members] in H.
    split_match H; injection H as <- <-; cbn [forallb snd].
    + erewrite IHv by eassumption. eapply IHm; eassumption.
    + now erewrite IHv by eassumption.
Qed.

Lemma parse_json (s : string) (v : jsval) :
  parse s = Some v -> is_json v = true.
Proof.
  unfold parse. intros H. split_match H. injection H as <-.
  eapply (proj1 (parse_value_json _)); eassumption.
Qed.

(** *** The fuel of [parse] is enough for every text *)

Lemma skip_ws_length (s : text) : (length (skip_ws s) <= length s)%nat.
Proof.
  induction s as [|c s IH]; [reflexivity|]. cbn [skip_ws].
  destruct (is_ws c); cbn [length]; lia.
Qed.

Lemma skip_ws_cons (s : text) (c : ascii) (r : text) :
  skip_ws s = c :: r -> (length r < length s)%nat.
Proof.
  intros H. pose proof (skip_ws_length s) as Hlen. rewrite H in Hlen.
  cbn [length] in Hlen. lia.
Qed.

Lemma take_digits_length (s : text) :
  (length (snd (take_digits s)) <= length s)%nat.
Proof.
  induction s as [|c s IH]; [reflexivity|]. cbn [take_digits].
  destruct (digit c); [|reflexivity].
  destruct (take_digits s). cbn [snd length] in *. lia.
Qed.

Lemma parse_int_length (s : text) (d : Decimal.uint) (r : text) :
  parse_int s = Some (d, r) -> (length r < length s)%nat.
Proof.
  unfold parse_int. destruct s as [|c s]; [discriminate|].
  destruct (N_of_ascii c =? 48)%N; [intros [= _ <-]; cbn [length]; lia|].
  destruct (digit c) eqn:E; [|discriminate]. intros [= H].
  cbn [take_digits] in H. rewrite E in H.
  pose proof (take_digits_length s) as Hlen.
  destruct (take_digits s). injection H as _ <-. cbn [snd length] in *. lia.
Qed.

Lemma parse_number_length (s : text) (v : jsval) (r : text) :
  parse_number s = Some (v, r) -> (length r < length s)%nat.
Proof.
  unfold parse_number. intros H. cbv zeta in H.
  destruct s as [|c s]; [discriminate|].
  destruct (N_of_ascii c =? 45)%N;
    (destruct (parse_int _) as [[d r']|] eqn:E; [|discriminate]);
    apply parse_int_length in E;
    destruct (continues_number r'); try discriminate;
    destruct (safe_integer _); try discriminate;
    injection H as _ <-; cbn [length] in *; lia.
Qed.

Lemma parse_chars_length (n : nat) :
  forall s cs r,
    (length s <= n)%nat -> parse_chars s = Some (cs, r) ->
    (length r < length s)%nat.
Proof.
  induction n as [|n IH]; intros s cs r Hn H.
  - destruct s; [discriminate|cbn [length] in Hn; lia].
  - destruct s as [|c s1]; [discriminate|]. cbn [parse_chars length] in *.
    unfold cons_char in H.
    split_match H; injection H as <- <-; cbn [length] in *;
      try lia;
      match goal with
      | E : parse_chars ?x = Some _ |- _ =>
          apply IH in E; [cbn [length] in *; lia|cbn [length] in *; lia]
      end.
Qed.

Lemma parse_string_length (s : text) (str : string) (r : text) :
  parse_string s = Some (str, r) -> (length r < length s)%nat.
Proof.
  unfold parse_string.
  destruct (parse_chars s) as [[cs r']|] eqn:E; [|discriminate].
  intros [= _ <-]. now apply (parse_chars_length (length s)) in E.
Qed.

Lemma expect_length (w s r : text) :
  expect w s = Some r -> length s = (length w + length r)%nat.
Proof.
  revert s. induction w as [|c w IH]; intros s; cbn [expect].
  - now intros [= ->].
  - destruct s as [|c' s]; [discriminate|].
    destruct (Ascii.eqb c c'); [|discriminate].
    intros H%IH. cbn [length]. lia.
Qed.

Lemma parse_literal_length (w : string) (v : jsval) (s : text) (v' : jsval)
    (r : text) :
  (0 < length (chars w))%nat ->
  parse_literal w v s = Some (v', r) -> (length r < length s)%nat.
Proof.
  unfold parse_literal. intros Hw.
  destruct (expect (chars w) s) eqn:E; [|discriminate]. intros [= _ <-].
  apply expect_length in E. lia.
Qed.

Ltac use_equations :=
  repeat match goal with
    | E : ?x = _ |- context [?x] => rewrite E
    end.

Ltac length_facts :=
  repeat match goal with
    | E : skip_ws _ = _ :: _ |- _ => apply skip_ws_cons in E
    | E : parse_string _ = Some _ |- _ => apply parse_string_length in E
    end.

Lemma parse_adequate (fuel : nat) : adequate fuel.
Proof.
  induction fuel as [|fuel (IHv & IHe & IHm)];
    [repeat split; discriminate|].
  split; [|split].
  - intros s v r H. cbn [parse_value] in H.
    split_match H.
    + (* an empty object *)
      injection H as <- <-. split; [length_facts; lia|].
      intros [|fuel'] Hfuel; [length_facts; lia|].
      cbn [parse_value]. now use_equations.
    + (* an object *)
      injection H as <- <-.
      match goal with E : parse_members _ _ = _ |- _ =>
        destruct (IHm _ _ _ E) as [Hlen Hmore] end.
      split; [length_facts; lia|].
      intros [|fuel'] Hfuel; [length_facts; lia|].
      cbn [parse_value]. use_equations.
      rewrite Hmore; [reflexivity|length_facts; lia].
    + (* an empty array *)
      injection H as <- <-. split; [length_facts; lia|].
      intros [|fuel'] Hfuel; [length_facts; lia|].
      cbn [parse_value]. now use_equations.
    + (* an array *)
      injection H as <- <-.
      match goal with E : parse_elements _ _ = _ |- _ =>
        destruct (IHe _ _ _ E) as [Hlen Hmore] end.
      split; [length_facts; lia|].
      intros [|fuel'] Hfuel; [length_facts; lia|].
      cbn [parse_value]. use_equations.
      rewrite Hmore; [reflexivity|length_facts; lia].
    + (* a string *)
      injection H as <- <-. split; [length_facts; lia|].
      intros [|fuel'] Hfuel; [length_facts; lia|].
      cbn [parse_value]. now use_equations.
    + (* null *)
      pose proof (parse_literal_length "null" _ _ _ _ ltac:(cbn; lia) H)
        as Hlen.
      split; [length_facts; cbn [length] in *; lia|].
      intros [|fuel'] Hfuel; [length_facts; cbn [length] in *; lia|].
      cbn [parse_value]. now use_equations.
    + (* true *)
      pose proof (parse_literal_length "true" _ _ _ _ ltac:(cbn; lia) H)
        as Hlen.
      split; [length_facts; cbn [length] in *; lia|].
      intros [|fuel'] Hfuel; [length_facts; cbn [length] in *; lia|].
      cbn [parse_value]. now use_equations.
    + (* false *)
      pose proof (parse_literal_length "false" _ _ _ _ ltac:(cbn; lia) H)
        as Hlen.
      split; [length_facts; cbn [length] in *; lia|].
      intros [|fuel'] Hfuel; [length_facts; cbn [length] in *; lia|].
      cbn [parse_value]. now use_equations.
    + (* a number *)
      pose proof (parse_number_length _ _ _ H) as Hlen.
      split; [length_facts; cbn [length] in *; lia|].
      intros [|fuel'] Hfuel; [length_facts; cbn [length] in *; lia|].
      cbn [parse_value]. now use_equations.
  - intros s vs r H. rewrite parse_elements_S in H.
    split_match H; injection H as <- <-;
      match goal with E : parse_value _ _ = _ |- _ =>
        destruct (IHv _ _ _ E) as [Hlen Hmore] end.
    + match goal with E : parse_elements _ _ = _ |- _ =>
        destruct (IHe _ _ _ E) as [Hlen' Hmore'] end.
      split; [length_facts; lia|].
      intros [|fuel'] Hfuel; [length_facts; lia|].
      rewrite parse_elements_S, Hmore by (length_facts; lia).
      use_equations. rewrite Hmore'; [reflexivity|length_facts; lia].
    + split; [length_facts; lia|].
      intros [|fuel'] Hfuel; [length_facts; lia|].
      rewrite parse_elements_S, Hmore by (length_facts; lia).
      now use_equations.
  - intros s ms r H. cbn [parse_members] in H.
    split_match H; injection H as <- <-;
      match goal with E : parse_value _ _ = _ |- _ =>
        destruct (IHv _ _ _ E) as [Hlen Hmore] end.
    + match goal with E : parse_members _ _ = _ |- _ =>
        destruct (IHm _ _ _ E) as [Hlen' Hmore'] end.
      split; [length_facts; lia|].
      intros [|fuel'] Hfuel; [length_facts; lia|].
      cbn [parse_members]. use_equations.
      rewrite Hmore by (length_facts; lia). use_equations.
      rewrite Hmore'; [reflexivity|length_facts; lia].
    + split; [length_facts; lia|].
      intros [|fuel'] Hfuel; [length_facts; lia|].
      cbn [parse_members]. use_equations.
      rewrite Hmore by (length_facts; lia). now use_equations.
Qed.

(** Whatever the parser finds with some fuel, [parse] finds. *)
Lemma parse_fuel_enough (fuel : nat) (s : string) (v : jsval) (r : text) :
  parse_value fuel (chars s) = Some (v, r) -> skip_ws r = [] ->
  parse s = Some v.
Proof.
  intros H Hr. destruct (parse_adequate fuel) as (Hv & _ & _).
  destruct (Hv _ _ _ H) as [_ Hmore]. unfold parse.
  rewrite Hmore by lia. now rewrite Hr.
Qed.

End JSONFacts.

(** ** The two helpers and the files *)

Module ServerFacts.
Import Numeral JSON JSONAux JSONFacts.

Lemma readData_absent (filePath : string) (w : world) :
  files w !! filePath = None ->
  readData filePath w
  = (Return (JArr []),
     World (<[filePath := "[]"]> (files w))
           (journal w ++ [Wrote filePath "[]"])).
Proof.
  intros H. unfold readData, try_catch, bind, fs.access. now rewrite H.
Qed.

Lemma readData_present (filePath : string) (w : world) (data : string) :
  files w !! filePath = Some data ->
  readData filePath w
  = (if String.eqb data "" then Return (JArr [])
     else match JSON.parse data with
          | Some v => Return v
          | None => Throw SyntaxError
          end, w).
Proof.
  intros H. unfold readData, try_catch, bind, fs.access, fs.readFile.
  rewrite H. cbv beta iota. rewrite H. cbv beta iota.
  destruct (String.eqb data ""); [reflexivity|].
  unfold JSON_parse. now destruct (JSON.parse data).
Qed.

Lemma readData_json (filePath : string) (w w' : world) (v : jsval) :
  readData filePath w = (Return v, w') -> is_json v = true.
Proof.
  destruct (files w !! filePath) as [data|] eqn:E.
  - rewrite (readData_present _ _ _ E).
    destruct (String.eqb data ""); [now intros [= <- _]|].
    destruct (JSON.parse data) eqn:Ep; intros [= <- _].
    now apply parse_json in Ep.
  - rewrite (readData_absent _ _ E). now intros [= <- _].
Qed.

(** A load that returns a non-empty array found its file and changed
    nothing. *)
Lemma readData_nonempty (filePath : string) (w w' : world) (x : jsval)
    (l : list jsval) :
  readData filePath w = (Return (JArr (x :: l)), w') -> w' = w.
Proof.
  destruct (files w !! filePath) as [data|] eqn:E.
  - rewrite (readData_present _ _ _ E). now intros [= _ <-].
  - rewrite (readData_absent _ _ E). discriminate.
Qed.

(** A second load returns what the first did and changes nothing. *)
Lemma readData_again (filePath : string) (w w' : world) (v : jsval) :
  readData filePath w = (Return v, w') -> readData filePath w' = (Return v, w').
Proof.
  destruct (files w !! filePath) as [data|] eqn:E.
  - rewrite (readData_present _ _ _ E). intros [= Hv <-].
    rewrite (readData_present _ _ _ E). now rewrite Hv.
  - rewrite (readData_absent _ _ E). intros [= <- <-].
    rewrite (readData_present _ _ "[]"); [reflexivity|]. cbn [files].
    apply lookup_insert_eq.
Qed.

(** The only entries a load adds to the journal are writes. *)
Lemma readData_no_formatting (filePath : string) (w w' : world)
    (o : outcome jsval) :
  readData filePath w = (o, w') -> no_new_formatting w w'.
Proof.
  destruct (files w !! filePath) as [data|] eqn:E.
  - rewrite (readData_present _ _ _ E). intros [= _ <-]. now intros r.
  - rewrite (readData_absent _ _ E). intros [= _ <-] r. cbn [journal].
    intros [Hin|[Hin|[]]]%in_app_or; [exact Hin|discriminate].
Qed.

Lemma writeData_json (filePath : string) (v : jsval) :
  is_json v = true ->
  exists data,
    JSON.stringify v = Some data /\
    forall w,
      let w' := World (<[filePath := data]> (files w))
                      (journal w ++ [Wrote filePath data]) in
      writeData filePath v w = (Return tt, w')
      /\ readData filePath w' = (Return v, w').
Proof.
  intros Hjson. destruct (parse_stringify v Hjson) as (data & Hs & Hp).
  exists data. split; [exact Hs|]. intros w w'.
  unfold writeData. rewrite Hs. split; [reflexivity|].
  erewrite readData_present by (subst w'; cbn [files]; apply lookup_insert_eq).
  rewrite Hp. pose proof (stringify_nonempty v data Hs) as Hne.
  now destruct (String.eqb_spec data "").
Qed.

Lemma stored_readData (filePath : string) (w : world) (v : jsval) :
  stored filePath w = Return v ->
  exists w', readData filePath w = (Return v, w').
Proof.
  unfold stored. destruct (readData filePath w) as [o w'].
  cbn [fst]. intros ->. now exists w'.
Qed.

(** *** Appending a record and saving *)

Lemma persisted_idem (o : object) : persisted (persisted o) = persisted o.
Proof.
  unfold persisted. induction o as [|[k v] o IH]; [reflexivity|].
  cbn [List.filter snd]. destruct (defined v) eqn:E; [|exact IH].
  cbn [List.filter snd]. now rewrite E, IH.
Qed.

Lemma persisted_element_text (indent : text) (o : object) :
  element_text indent (JObj (persisted o)) = element_text indent (JObj o).
Proof.
  unfold element_text. rewrite !serialize_obj.
  fold (persisted o). fold (persisted (persisted o)).
  now rewrite persisted_idem.
Qed.

Lemma stringify_append_persisted (l : list jsval) (o : object) :
  JSON.stringify (JArr (l ++ [JObj (persisted o)]))
  = JSON.stringify (JArr (l ++ [JObj o])).
Proof.
  unfold stringify. rewrite !serialize_arr, !map_app. cbn [map].
  now rewrite persisted_element_text.
Qed.

Lemma persisted_json_id (o : object) :
  is_json (JObj o) = true -> persisted o = o.
Proof.
  cbn [is_json]. intros [_ H]%andb_prop. now apply filter_defined_json.
Qed.

Lemma distinct_persisted (o : object) :
  distinct (map fst o) = true -> distinct (map fst (persisted o)) = true.
Proof.
  unfold persisted. induction o as [|[k v] o IH]; [reflexivity|].
  cbn [map fst List.filter snd]. intros [Hk Ho]%distinct_cons.
  destruct (defined v); [|now apply IH].
  cbn [map fst]. apply distinct_cons. split; [|now apply IH].
  intros Hin. apply Hk. apply in_map_iff in Hin as ([k' v'] & <- & Hin).
  apply filter_In in Hin as [Hin _]. apply in_map_iff. now exists (k', v').
Qed.

Lemma ordered_persisted (o : object) :
  Obj.ordered (map fst o) = true ->
  Obj.ordered (map fst (persisted o)) = true.
Proof.
  unfold persisted. induction o as [|[k v] o IH]; [reflexivity|].
  cbn [map fst List.filter snd]. intros [Hk Ho]%ordered_cons.
  destruct (defined v); [|now apply IH].
  cbn [map fst]. apply ordered_cons. split; [|now apply IH].
  intros k' Hin. apply Hk. apply in_map_iff in Hin as ([k1 v1] & <- & Hin).
  apply filter_In in Hin as [Hin _]. apply in_map_iff. now exists (k1, v1).
Qed.

Lemma persisted_json (o : object) :
  distinct (map fst o) = true -> Obj.ordered (map fst o) = true ->
  Forall (fun kv => defined (snd kv) = true -> is_json (snd kv) = true) o ->
  is_json (JObj (persisted o)) = true.
Proof.
  intros Hd Ho Hv. apply is_json_obj.
  split; [now apply distinct_persisted|]. split; [now apply ordered_persisted|].
  clear Hd Ho. unfold persisted.
  induction Hv as [|[k v] o Hkv _ IH]; [reflexivity|].
  cbn [List.filter snd] in *.
  destruct (defined v) eqn:E; [|exact IH].
  cbn [forallb snd]. now rewrite Hkv, IH.
Qed.

Lemma get_json (k : string) (o : object) :
  forallb (fun kv => is_json (snd kv)) o = true ->
  defined (Obj.get k o) = true -> is_json (Obj.get k o) = true.
Proof.
  induction o as [|[k' v] o IH]; [discriminate|].
  cbn [forallb snd Obj.get]. intros [Hv Ho]%andb_prop.
  destruct (String.eqb k k'); auto.
Qed.

Lemma append_saved (filePath : string) (l : list jsval) (o : object)
    (w : world) :
  is_json (JArr l) = true -> is_json (JObj (persisted o)) = true ->
  exists w',
    writeData filePath (JArr (l ++ [JObj o])) w = (Return tt, w')
    /\ readData filePath w' = (Return (JArr (l ++ [JObj (persisted o)])), w')
    /\ no_new_formatting w w'.
Proof.
  intros Hl Ho.
  destruct (writeData_json filePath (JArr (l ++ [JObj (persisted o)])))
    as (data & Hs & Hw).
  { cbn [is_json] in *. rewrite forallb_app, Hl. cbn [forallb].
    now rewrite Bool.andb_true_r. }
  destruct (Hw w) as [Hwrite Hread]. eexists. split; [|split].
  - unfold writeData in *. rewrite <- stringify_append_persisted. exact Hwrite.
  - exact Hread.
  - intros r. cbn [journal].
    intros [Hin|[Hin|[]]]%in_app_or; [exact Hin|discriminate].
Qed.

(** *** The search for an existing customer *)

(** On strings, [===] is equality of the characters, letter case
    included. *)
Lemma has_email_string (e : string) (o : object) :
  has_email (JStr e) (JObj o) = true <-> Obj.get "email" o = JStr e.
Proof.
  cbn [has_email]. destruct (Obj.get "email" o); cbn [strict_equals];
    try (split; [discriminate|discriminate]).
  rewrite String.eqb_eq. split; congruence.
Qed.

Example has_email_case :
  has_email (JStr "A@x.com") (JObj [("email", JStr "a@x.com")]) = false.
Proof. reflexivity. Qed.

Lemma find_in_absent (email : jsval) (customers : list jsval) :
  forallb is_record customers = true ->
  existsb (has_email email) customers = false ->
  find_in (same_email email) customers = Return JUndefined.
Proof.
  induction customers as [|c customers IH]; [reflexivity|].
  cbn [forallb existsb find_in].
  intros [Hc Hcs]%andb_prop [Hec Hecs]%Bool.orb_false_iff.
  destruct c; try discriminate. unfold same_email at 1.
  cbn [get_property has_email] in *. rewrite Hec. now apply IH.
Qed.

Lemma find_in_present (email : jsval) (customers : list jsval) :
  forallb is_record customers = true ->
  existsb (has_email email) customers = true ->
  exists c, find_in (same_email email) customers = Return c
            /\ truthy c = true.
Proof.
  induction customers as [|c customers IH]; [discriminate|].
  cbn [forallb existsb find_in]. intros [Hc Hcs]%andb_prop Hex.
  destruct c; try discriminate. unfold same_email at 1.
  cbn [get_property has_email] in *.
  destruct (strict_equals (Obj.get "email" l) email).
  - now eexists.
  - now apply IH.
Qed.

(** *** Signup *)

Lemma time_value_safe (t : Z) :
  time_value t = true -> safe_integer t = true.
Proof.
  unfold time_value, safe_integer. intros H%Z.leb_le. apply Z.leb_le. lia.
Qed.

Lemma newCustomer_json (now : clock) (req_body : object) :
  time_value (Date_now now) = true ->
  is_json (JObj req_body) = true ->
  is_json (JObj (persisted (newCustomer_of now req_body))) = true.
Proof.
  intros Hnow%time_value_safe (_ & _ & Hbody)%is_json_obj.
  apply persisted_json; [reflexivity|reflexivity|].
  unfold newCustomer_of.
  repeat (constructor; [cbn [snd]; auto using get_json|]). constructor.
Qed.

Lemma signup_appends (now : clock) (req_body : object) (w w1 : world)
    (customers : list jsval) :
  time_value (Date_now now) = true ->
  is_json (JObj req_body) = true ->
  readData customersFilePath w = (Return (JArr customers), w1) ->
  forallb is_record customers = true ->
  existsb (has_email (Obj.get "email" req_body)) customers = false ->
  exists w2,
    post_signup now req_body w
    = (Return
         (Response 201
            (Json (JObj [("message", JStr "Customer registered successfully!");
                         ("customer", JObj (newCustomer_of now req_body))]))),
       w2)
    /\ readData customersFilePath w2
       = (Return (JArr (customers
                          ++ [JObj (persisted (newCustomer_of now req_body))])),
          w2)
    /\ no_new_formatting w1 w2.
Proof.
  intros Hnow Hbody Hread Hrecords Hfresh.
  destruct (append_saved customersFilePath customers
              (newCustomer_of now req_body) w1
              (readData_json _ _ _ _ Hread)
              (newCustomer_json now _ Hnow Hbody))
    as (w2 & Hwrite & Hstored & Hlog).
  exists w2. split; [|split; assumption].
  unfold post_signup, try_catch, bind. rewrite Hread. unfold lift.
  cbn [Array_find].
  change (fun customer => match get_property customer "email" with
                          | Return e =>
                              Return (strict_equals e (Obj.get "email" req_body))
                          | Throw err => Throw err
                          end)
    with (same_email (Obj.get "email" req_body)).
  rewrite find_in_absent by assumption.
  cbn [truthy Array_push]. fold (newCustomer_of now req_body).
  now rewrite Hwrite.
Qed.

(** *** Orders and reservations *)

Lemma get_set (k k' : string) (v : jsval) (o : object) :
  Obj.get k (Obj.set k' v o) = if String.eqb k k' then v else Obj.get k o.
Proof.
  induction o as [|[k1 v1] o IH]; [reflexivity|]. cbn [Obj.set Obj.get].
  destruct (String.eqb_spec k' k1) as [->|Hne]; cbn [Obj.get].
  - now destruct (String.eqb k k1).
  - destruct (Obj.precedes k' k1); cbn [Obj.get]; [reflexivity|].
    rewrite IH. destruct (String.eqb_spec k k1) as [->|_]; [|reflexivity].
    destruct (String.eqb_spec k1 k'); [congruence|reflexivity].
Qed.

Lemma spread_get_target (k : string) (source target : object) :
  ~ In k (Obj.keys source) ->
  Obj.get k (Obj.spread target source) = Obj.get k target.
Proof.
  revert target. unfold Obj.spread, Obj.keys.
  induction source as [|[k' v] source IH]; intros target Hk; [reflexivity|].
  cbn [fold_left fst snd map In] in *. rewrite IH by tauto.
  rewrite get_set. destruct (String.eqb_spec k k'); [|reflexivity].
  subst. tauto.
Qed.

Lemma spread_get_source (k : string) (source target : object) :
  distinct (Obj.keys source) = true -> In k (Obj.keys source) ->
  Obj.get k (Obj.spread target source) = Obj.get k source.
Proof.
  revert target. unfold Obj.keys.
  induction source as [|[k' v] source IH]; intros target Hd Hk; [destruct Hk|].
  cbn [map fst] in Hd. apply distinct_cons in Hd as [Hfresh Hd].
  change (Obj.spread target ((k', v) :: source))
    with (Obj.spread (Obj.set k' v target) source).
  cbn [Obj.get]. destruct (String.eqb_spec k k') as [->|Hne].
  - rewrite spread_get_target by exact Hfresh. rewrite get_set.
    now rewrite String.eqb_refl.
  - apply IH; [exact Hd|]. destruct Hk as [Heq|Hin]; [|exact Hin].
    cbn [fst] in Heq. congruence.
Qed.

Lemma submitted_json (now : clock) (req_body : object) :
  time_value (Date_now now) = true ->
  is_json (JObj req_body) = true ->
  is_json (JObj (submitted_of now req_body)) = true.
Proof.
  intros Hnow%time_value_safe (_ & _ & Hbody)%is_json_obj.
  apply spread_json; [|exact Hbody].
  apply is_json_obj. repeat split. cbn [forallb snd is_json].
  now rewrite Hnow.
Qed.

Lemma orders_appends (now : clock) (req_body : object) (w w1 : world)
    (orders : list jsval) :
  time_value (Date_now now) = true ->
  is_json (JObj req_body) = true ->
  readData ordersFilePath w = (Return (JArr orders), w1) ->
  exists w2,
    post_orders now req_body w
    = (Return
         (Response 201
            (Json (JObj [("message", JStr "Order received!");
                         ("order", JObj (submitted_of now req_body))]))),
       w2)
    /\ readData ordersFilePath w2
       = (Return (JArr (orders ++ [JObj (submitted_of now req_body)])), w2).
Proof.
  intros Hnow Hbody Hread.
  pose proof (submitted_json now _ Hnow Hbody) as Hrecord.
  destruct (append_saved ordersFilePath orders (submitted_of now req_body) w1
              (readData_json _ _ _ _ Hread))
    as (w2 & Hwrite & Hstored & _).
  { now rewrite persisted_json_id. }
  rewrite persisted_json_id in Hstored by exact Hrecord.
  exists w2. split; [|exact Hstored].
  unfold post_orders, try_catch, bind. rewrite Hread. unfold lift.
  cbn [Array_push]. fold (submitted_of now req_body). now rewrite Hwrite.
Qed.

Lemma reservations_appends (now : clock) (req_body : object) (w w1 : world)
    (reservations : list jsval) :
  time_value (Date_now now) = true ->
  is_json (JObj req_body) = true ->
  readData reservationsFilePath w = (Return (JArr reservations), w1) ->
  exists w2,
    post_reservations now req_body w
    = (Return
         (Response 201
            (Json (JObj [("message", JStr "Reservation received!");
                         ("reservation", JObj (submitted_of now req_body))]))),
       w2)
    /\ readData reservationsFilePath w2
       = (Return (JArr (reservations ++ [JObj (submitted_of now req_body)])),
          w2).
Proof.
  intros Hnow Hbody Hread.
  pose proof (submitted_json now _ Hnow Hbody) as Hrecord.
  destruct (append_saved reservationsFilePath reservations
              (submitted_of now req_body) w1 (readData_json _ _ _ _ Hread))
    as (w2 & Hwrite & Hstored & _).
  { now rewrite persisted_json_id. }
  rewrite persisted_json_id in Hstored by exact Hrecord.
  exists w2. split; [|exact Hstored].
  unfold post_reservations, try_catch, bind. rewrite Hread. unfold lift.
  cbn [Array_push]. fold (submitted_of now req_body). now rewrite Hwrite.
Qed.

Lemma get_persisted (k : string) (o : object) :
  defined (Obj.get k o) = true -> Obj.get k (persisted o) = Obj.get k o.
Proof.
  unfold persisted. induction o as [|[k' v] o IH]; [reflexivity|].
  cbn [Obj.get List.filter snd].
  destruct (String.eqb k k') eqn:E.
  - intros ->. cbn [Obj.get]. now rewrite E.
  - intros H. destruct (defined v); [cbn [Obj.get]; rewrite E|]; now apply IH.
Qed.

Lemma readData_stored (filePath : string) (w w' : world) (v : jsval) :
  readData filePath w = (Return v, w') -> stored filePath w = Return v.
Proof. unfold stored. now intros ->. Qed.

End ServerFacts.

(** * The claims *)

Import JSONAux JSONFacts ServerFacts.

(** C1 (as stated it fails: see the counterexample below). In an order or a
    reservation, the record that is appended and returned is
    [{ id, date }] with the readings of the clock, overwritten by the
    fields of the request: every key the request carries keeps the
    request's value, [id] and [date] included, and the generated [id] and
    [date] are there only when the request does not carry them. *)
Theorem C1_request_fields_take_precedence (now : clock) (req_body : object)
    (w : world) :
  time_value (Date_now now) = true ->
  is_json (JObj req_body) = true ->
  let record := submitted_of now req_body in
  (forall k, In k (Obj.keys req_body) ->
             Obj.get k record = Obj.get k req_body)
  /\ (~ In "id" (Obj.keys req_body) ->
      Obj.get "id" record = JNum (Date_now now))
  /\ (~ In "date" (Obj.keys req_body) ->
      Obj.get "date" record = JStr (Date_toISOString now))
  /\ (forall orders,
        stored ordersFilePath w = Return (JArr orders) ->
        exists w',
          post_orders now req_body w
          = (Return
               (Response 201
                  (Json (JObj [("message", JStr "Order received!");
                               ("order", JObj record)]))), w')
          /\ stored ordersFilePath w' = Return (JArr (orders ++ [JObj record])))
  /\ (forall reservations,
        stored reservationsFilePath w = Return (JArr reservations) ->
        exists w',
          post_reservations now req_body w
          = (Return
               (Response 201
                  (Json (JObj [("message", JStr "Reservation received!");
                               ("reservation", JObj record)]))), w')
          /\ stored reservationsFilePath w'
             = Return (JArr (reservations ++ [JObj record]))).
Proof.
  intros Hnow Hbody record. subst record.
  pose proof Hbody as (Hkeys & _ & _)%is_json_obj.
  split; [|split; [|split; [|split]]]; try unfold submitted_of at 1.
  - intros k Hk. now apply spread_get_source.
  - intros Hk. now rewrite spread_get_target.
  - intros Hk. now rewrite spread_get_target.
  - intros orders [w1 Hread]%stored_readData.
    destruct (orders_appends now req_body w w1 orders Hnow Hbody Hread)
      as (w2 & Hresponse & Hstored).
    exists w2. split; [exact Hresponse|].
    exact (readData_stored _ _ _ _ Hstored).
  - intros reservations [w1 Hread]%stored_readData.
    destruct (reservations_appends now req_body w w1 reservations Hnow Hbody
                Hread)
      as (w2 & Hresponse & Hstored).
    exists w2. split; [exact Hresponse|].
    exact (readData_stored _ _ _ _ Hstored).
Qed.

Lemma C1_witness :
  let req_body := [("id", JNum 7); ("dish", JStr "Dal")] in
  time_value (Date_now noon) = true
  /\ is_json (JObj req_body) = true
  /\ Obj.get "id" (submitted_of noon req_body) = JNum 7
  /\ Obj.get "date" (submitted_of noon req_body)
     = JStr "2023-11-14T22:13:20.000Z".
Proof.
  intros req_body. do 2 (split; [reflexivity|]).
  destruct (C1_request_fields_take_precedence noon req_body empty_world)
    as (Hkey & _ & Hdate & _); [reflexivity|reflexivity|].
  split.
  - rewrite Hkey; [reflexivity|]. left. reflexivity.
  - rewrite Hdate; [reflexivity|].
    intros [H|[H|[]]]; discriminate H.
Defined.

(** C1, refuted as stated: an order and a reservation that carry [id] and
    [date] are answered 201 and stored with the caller's [id] and [date],
    which differ from the readings of the clock. *)
Lemma C1_counterexample :
  let req_body :=
    [("id", JNum 7); ("date", JStr "tomorrow"); ("dish", JStr "Dal")] in
  fst (post_orders noon req_body empty_world)
  = Return (Response 201
              (Json (JObj [("message", JStr "Order received!");
                           ("order", JObj req_body)])))
  /\ stored ordersFilePath (snd (post_orders noon req_body empty_world))
     = Return (JArr [JObj req_body])
  /\ fst (post_reservations noon req_body empty_world)
     = Return (Response 201
                 (Json (JObj [("message", JStr "Reservation received!");
                              ("reservation", JObj req_body)])))
  /\ stored reservationsFilePath
       (snd (post_reservations noon req_body empty_world))
     = Return (JArr [JObj req_body])
  /\ Obj.get "id" req_body <> JNum (Date_now noon)
  /\ Obj.get "date" req_body <> JStr (Date_toISOString noon).
Proof.
  vm_compute. repeat split; discriminate.
Qed.

(** C2 (as stated it fails: see the counterexample below). On an empty
    customer collection, a signup with email [a@x.com] followed by one with
    email [b@x.com] are both answered 201, and the stored collection is
    then exactly two records in signup order, with these emails; the [id]
    of each record is its request's reading of [Date.now()], so the two ids
    differ exactly when the two readings differ. *)
Theorem C2_two_signups (now1 now2 : clock) (body1 body2 : object)
    (w : world) :
  time_value (Date_now now1) = true ->
  time_value (Date_now now2) = true ->
  is_json (JObj body1) = true ->
  is_json (JObj body2) = true ->
  Obj.get "email" body1 = JStr "a@x.com" ->
  Obj.get "email" body2 = JStr "b@x.com" ->
  stored customersFilePath w = Return (JArr []) ->
  exists w1 w2 record1 record2,
    post_signup now1 body1 w
    = (Return
         (Response 201
            (Json (JObj [("message", JStr "Customer registered successfully!");
                         ("customer", JObj (newCustomer_of now1 body1))]))),
       w1)
    /\ post_signup now2 body2 w1
       = (Return
            (Response 201
               (Json (JObj [("message",
                             JStr "Customer registered successfully!");
                            ("customer", JObj (newCustomer_of now2 body2))]))),
          w2)
    /\ stored customersFilePath w2 = Return (JArr [JObj record1; JObj record2])
    /\ Obj.get "email" record1 = JStr "a@x.com"
    /\ Obj.get "email" record2 = JStr "b@x.com"
    /\ Obj.get "id" record1 = JNum (Date_now now1)
    /\ Obj.get "id" record2 = JNum (Date_now now2)
    /\ (Obj.get "id" record1 <> Obj.get "id" record2
        <-> Date_now now1 <> Date_now now2).
Proof.
  intros Hnow1 Hnow2 Hbody1 Hbody2 Hemail1 Hemail2 [w0 Hread]%stored_readData.
  destruct (signup_appends now1 body1 w w0 [] Hnow1 Hbody1 Hread eq_refl
              eq_refl)
    as (w1 & Hfirst & Hstored1 & _).
  cbn [app] in Hstored1.
  assert (Hget1 : Obj.get "email" (persisted (newCustomer_of now1 body1))
                  = JStr "a@x.com").
  { rewrite get_persisted; cbn [newCustomer_of Obj.get String.eqb Ascii.eqb
                                  Bool.eqb]; now rewrite Hemail1. }
  assert (Hget2 : Obj.get "email" (persisted (newCustomer_of now2 body2))
                  = JStr "b@x.com").
  { rewrite get_persisted; cbn [newCustomer_of Obj.get String.eqb Ascii.eqb
                                  Bool.eqb]; now rewrite Hemail2. }
  destruct (signup_appends now2 body2 w1 w1
              [JObj (persisted (newCustomer_of now1 body1))] Hnow2 Hbody2
              Hstored1 eq_refl) as (w2 & Hsecond & Hstored2 & _).
  { cbn [existsb has_email]. now rewrite Hget1, Hemail2. }
  cbn [app] in Hstored2.
  exists w1, w2, (persisted (newCustomer_of now1 body1)),
    (persisted (newCustomer_of now2 body2)).
  split; [exact Hfirst|]. split; [exact Hsecond|].
  split; [exact (readData_stored _ _ _ _ Hstored2)|].
  split; [exact Hget1|]. split; [exact Hget2|].
  rewrite !get_persisted by reflexivity.
  change (Obj.get "id" (newCustomer_of now1 body1)) with (JNum (Date_now now1)).
  change (Obj.get "id" (newCustomer_of now2 body2)) with (JNum (Date_now now2)).
  repeat split; congruence.
Qed.

Lemma C2_witness :
  let body1 := [("email", JStr "a@x.com")] in
  let body2 := [("email", JStr "b@x.com")] in
  let later := Clock 1700000000001 "2023-11-14T22:13:20.001Z" in
  time_value (Date_now noon) = true
  /\ time_value (Date_now later) = true
  /\ is_json (JObj body1) = true
  /\ is_json (JObj body2) = true
  /\ Obj.get "email" body1 = JStr "a@x.com"
  /\ Obj.get "email" body2 = JStr "b@x.com"
  /\ stored customersFilePath empty_world = Return (JArr [])
  /\ exists w2 record1 record2,
       stored customersFilePath w2 = Return (JArr [JObj record1; JObj record2])
       /\ Obj.get "id" record1 <> Obj.get "id" record2.
Proof.
  intros body1 body2 later.
  do 7 (split; [reflexivity|]).
  destruct (C2_two_signups noon later body1 body2 empty_world)
    as (w1 & w2 & record1 & record2 & _ & _ & Hstored & _ & _ & _ & _ & Hids);
    [reflexivity..|].
  exists w2, record1, record2. split; [exact Hstored|].
  apply Hids. discriminate.
Defined.

(** C2, refuted as stated: when the two requests read the same
    [Date.now()], both signups are answered 201 and the two stored records
    have the same [id]. *)
Lemma C2_counterexample :
  let body1 := [("email", JStr "a@x.com")] in
  let body2 := [("email", JStr "b@x.com")] in
  let w1 := snd (post_signup noon body1 empty_world) in
  let w2 := snd (post_signup noon body2 w1) in
  let record1 :=
    [("id", JNum 1700000000000); ("email", JStr "a@x.com");
     ("signupDate", JStr "2023-11-14T22:13:20.000Z")] in
  let record2 :=
    [("id", JNum 1700000000000); ("email", JStr "b@x.com");
     ("signupDate", JStr "2023-11-14T22:13:20.000Z")] in
  option_map status
    (match fst (post_signup noon body1 empty_world) with
     | Return r => Some r
     | Throw _ => None
     end) = Some 201
  /\ option_map status
       (match fst (post_signup noon body2 w1) with
        | Return r => Some r
        | Throw _ => None
        end) = Some 201
  /\ stored customersFilePath w2 = Return (JArr [JObj record1; JObj record2])
  /\ ~ (Obj.get "id" record1 <> Obj.get "id" record2).
Proof.
  vm_compute. repeat split. intros H. now apply H.
Qed.

(** C3. When the customer collection is a sequence of records and one of
    them has an email strictly equal to the email of a signup request, the
    request is answered 400 with the duplicate-email message, and the world
    is left as it was: nothing is appended and nothing is written. *)
Theorem C3_duplicate_email_is_rejected (now : clock) (req_body : object)
    (w : world) (customers : list jsval) :
  stored customersFilePath w = Return (JArr customers) ->
  forallb is_record customers = true ->
  existsb (has_email (Obj.get "email" req_body)) customers = true ->
  post_signup now req_body w
  = (Return
       (Response 400 (message "A customer with this email already exists.")),
     w).
Proof.
  intros [w1 Hread]%stored_readData Hrecords Hdup.
  destruct customers as [|c customers]; [discriminate|].
  pose proof (readData_nonempty _ _ _ _ _ Hread) as ->.
  destruct (find_in_present _ _ Hrecords Hdup) as (found & Hfind & Htruthy).
  unfold post_signup, try_catch, bind. rewrite Hread. unfold lift.
  cbn [Array_find].
  change (fun customer => match get_property customer "email" with
                          | Return e =>
                              Return (strict_equals e (Obj.get "email" req_body))
                          | Throw err => Throw err
                          end)
    with (same_email (Obj.get "email" req_body)).
  now rewrite Hfind, Htruthy.
Qed.

Lemma C3_witness :
  let req_body := [("name", JStr "Anna"); ("email", JStr "a@x.com")] in
  let anna := JObj (persisted (newCustomer_of noon req_body)) in
  let w := snd (post_signup noon req_body empty_world) in
  stored customersFilePath w = Return (JArr [anna])
  /\ forallb is_record [anna] = true
  /\ existsb (has_email (Obj.get "email" req_body)) [anna] = true
  /\ post_signup noon req_body w
     = (Return
          (Response 400
             (message "A customer with this email already exists.")),
        w).
Proof.
  intros req_body anna w.
  assert (Hstored : stored customersFilePath w = Return (JArr [anna]))
    by (vm_compute; reflexivity).
  split; [exact Hstored|]. split; [reflexivity|]. split; [reflexivity|].
  apply (C3_duplicate_email_is_rejected noon _ w [anna] Hstored);
    reflexivity.
Defined.

(** C4. An update-menu request whose password is not strictly equal to the
    configured secret is answered 401 "Unauthorized", and the world (every
    file, and the journal of writes) is left as it was. *)
Theorem C4_wrong_secret_is_unauthorized (req_body : object) (w : world) :
  strict_equals (Obj.get "password" req_body) (JStr "themomchef@123") = false ->
  post_update_menu req_body w
  = (Return (Response 401 (message "Unauthorized")), w).
Proof.
  intros Hwrong. unfold post_update_menu. now rewrite Hwrong.
Qed.

Lemma C4_witness :
  strict_equals
    (Obj.get "password" [("password", JStr "themomchef@124"); ("menu", JArr [])])
    (JStr "themomchef@123") = false
  /\ post_update_menu [("password", JStr "themomchef@124"); ("menu", JArr [])]
       empty_world
     = (Return (Response 401 (message "Unauthorized")), empty_world).
Proof.
  split; [reflexivity|].
  apply C4_wrong_secret_is_unauthorized. reflexivity.
Defined.

(** C5. When the customer collection is a sequence of records none of which
    has the email of the request, signup answers 201 with the new record
    and the stored collection becomes the prior records, unchanged and in
    place, followed by exactly one record; the [id] and [signupDate] of
    that record are the readings of the clock, whatever the request
    carries. *)
Theorem C5_signup_appends_one_record (now : clock) (req_body : object)
    (w : world) (customers : list jsval) :
  time_value (Date_now now) = true ->
  is_json (JObj req_body) = true ->
  stored customersFilePath w = Return (JArr customers) ->
  forallb is_record customers = true ->
  existsb (has_email (Obj.get "email" req_body)) customers = false ->
  exists w' record,
    post_signup now req_body w
    = (Return
         (Response 201
            (Json (JObj [("message", JStr "Customer registered successfully!");
                         ("customer", JObj (newCustomer_of now req_body))]))),
       w')
    /\ stored customersFilePath w' = Return (JArr (customers ++ [JObj record]))
    /\ length (customers ++ [JObj record]) = S (length customers)
    /\ record = persisted (newCustomer_of now req_body)
    /\ Obj.get "id" record = JNum (Date_now now)
    /\ Obj.get "signupDate" record = JStr (Date_toISOString now)
    /\ Obj.get "id" (newCustomer_of now req_body) = JNum (Date_now now)
    /\ Obj.get "signupDate" (newCustomer_of now req_body)
       = JStr (Date_toISOString now).
Proof.
  intros Hnow Hbody [w1 Hread]%stored_readData Hrecords Hfresh.
  destruct (signup_appends now req_body w w1 customers Hnow Hbody Hread
              Hrecords Hfresh) as (w2 & Hresponse & Hstored & _).
  exists w2, (persisted (newCustomer_of now req_body)).
  split; [exact Hresponse|]. split; [exact (readData_stored _ _ _ _ Hstored)|].
  split; [rewrite length_app; cbn [length]; lia|].
  split; [reflexivity|].
  rewrite !get_persisted by reflexivity. repeat split; reflexivity.
Qed.

Lemma C5_witness :
  let req_body :=
    [("name", JStr "Anna"); ("email", JStr "a@x.com"); ("id", JNum 5);
     ("signupDate", JStr "never"); ("password", JStr "pw")] in
  time_value (Date_now noon) = true
  /\ is_json (JObj req_body) = true
  /\ stored customersFilePath empty_world = Return (JArr [])
  /\ exists w' record,
       fst (post_signup noon req_body empty_world)
       = Return
           (Response 201
              (Json (JObj [("message",
                            JStr "Customer registered successfully!");
                           ("customer", JObj (newCustomer_of noon req_body))])))
       /\ stored customersFilePath w' = Return (JArr [JObj record])
       /\ Obj.get "id" record = JNum 1700000000000
       /\ Obj.get "signupDate" record = JStr "2023-11-14T22:13:20.000Z".
Proof.
  intros req_body. do 3 (split; [reflexivity|]).
  destruct (C5_signup_appends_one_record noon req_body empty_world [])
    as (w' & record & H1 & H2 & _ & _ & H3 & H4 & _);
    [reflexivity|reflexivity|reflexivity|reflexivity|reflexivity|].
  exists w', record. rewrite H1. repeat split; assumption.
Defined.

(** C6. Loading a collection whose file is absent creates the file with the
    empty array, records that one write, and returns the empty array; the
    next load finds the file, returns the empty array again and changes
    nothing (so it did not go through the missing-file branch, which
    writes). *)
Theorem C6_load_creates_missing_storage (filePath : string) (w : world) :
  files w !! filePath = None ->
  let w' := World (<[filePath := "[]"]> (files w))
                  (journal w ++ [Wrote filePath "[]"]) in
  readData filePath w = (Return (JArr []), w')
  /\ files w' !! filePath = Some "[]"
  /\ readData filePath w' = (Return (JArr []), w').
Proof.
  intros Habsent w'. pose proof (readData_absent filePath w Habsent) as Hfirst.
  split; [exact Hfirst|]. split.
  - apply lookup_insert_eq.
  - exact (readData_again _ _ _ _ Hfirst).
Qed.

Lemma C6_witness :
  files empty_world !! ordersFilePath = None
  /\ readData ordersFilePath empty_world
     = (Return (JArr []),
        World (<[ordersFilePath := "[]"]> ∅) [Wrote ordersFilePath "[]"])
  /\ readData ordersFilePath
       (World (<[ordersFilePath := "[]"]> ∅) [Wrote ordersFilePath "[]"])
     = (Return (JArr []),
        World (<[ordersFilePath := "[]"]> ∅) [Wrote ordersFilePath "[]"]).
Proof.
  split; [reflexivity|].
  destruct (C6_load_creates_missing_storage ordersFilePath empty_world)
    as (H1 & _ & H2); [reflexivity|].
  split; [exact H1|exact H2].
Defined.

(** C7. Saving a JSON value [s] to a collection and loading the collection
    returns [s]; and saving back what a load returned leaves the next load
    with the same result. *)
Theorem C7_save_then_load (C : string) (s : jsval) (w : world) :
  is_json s = true ->
  (exists w1,
      writeData C s w = (Return tt, w1)
      /\ readData C w1 = (Return s, w1))
  /\ (forall v w', readData C w = (Return v, w') ->
        exists w2,
          writeData C v w' = (Return tt, w2)
          /\ readData C w2 = (Return v, w2)).
Proof.
  intros Hjson. split.
  - destruct (writeData_json C s Hjson) as (data & _ & H).
    eexists. exact (H w).
  - intros v w' Hload.
    destruct (writeData_json C v (readData_json _ _ _ _ Hload))
      as (data & _ & H).
    eexists. exact (H w').
Qed.

Lemma C7_witness :
  is_json (JArr [JObj [("name", JStr "Dal"); ("price", JNum 120)]]) = true
  /\ exists w1,
       writeData menuFilePath
         (JArr [JObj [("name", JStr "Dal"); ("price", JNum 120)]]) empty_world
       = (Return tt, w1)
       /\ readData menuFilePath w1
          = (Return (JArr [JObj [("name", JStr "Dal"); ("price", JNum 120)]]),
             w1).
Proof.
  split; [reflexivity|].
  destruct (C7_save_then_load menuFilePath
              (JArr [JObj [("name", JStr "Dal"); ("price", JNum 120)]])
              empty_world) as [H _]; [reflexivity|exact H].
Defined.

(** C8. When the stored collection is the empty sequence, each of the three
    export routes answers 200 with its plain sentence, not with CSV, and
    the formatter is not called: the journal gains no [Formatted] entry. *)
Theorem C8_export_of_empty_collection (format : jsval -> option string)
    (w : world) :
  (stored ordersFilePath w = Return (JArr []) ->
   exists w',
     get_export_orders format w
     = (Return (Response 200 (Text "No orders to export.")), w')
     /\ no_new_formatting w w')
  /\ (stored reservationsFilePath w = Return (JArr []) ->
      exists w',
        get_export_reservations format w
        = (Return (Response 200 (Text "No reservations to export.")), w')
        /\ no_new_formatting w w')
  /\ (stored customersFilePath w = Return (JArr []) ->
      exists w',
        get_export_customers format w
        = (Return (Response 200 (Text "No customers to export.")), w')
        /\ no_new_formatting w w').
Proof.
  split; [|split]; intros [w' Hread]%stored_readData; exists w';
    (split; [|exact (readData_no_formatting _ _ _ _ Hread)]).
  - unfold get_export_orders, try_catch, bind. now rewrite Hread.
  - unfold get_export_reservations, try_catch, bind. now rewrite Hread.
  - unfold get_export_customers, try_catch, bind. now rewrite Hread.
Qed.

Lemma C8_witness :
  let w := World {[ordersFilePath := "[]"; customersFilePath := ""]} [] in
  stored ordersFilePath w = Return (JArr [])
  /\ stored reservationsFilePath w = Return (JArr [])
  /\ stored customersFilePath w = Return (JArr [])
  /\ fst (get_export_orders no_csv w)
     = Return (Response 200 (Text "No orders to export."))
  /\ fst (get_export_reservations no_csv w)
     = Return (Response 200 (Text "No reservations to export."))
  /\ fst (get_export_customers no_csv w)
     = Return (Response 200 (Text "No customers to export.")).
Proof.
  intros w.
  assert (Ho : stored ordersFilePath w = Return (JArr []))
    by (vm_compute; reflexivity).
  assert (Hr : stored reservationsFilePath w = Return (JArr []))
    by (vm_compute; reflexivity).
  assert (Hc : stored customersFilePath w = Return (JArr []))
    by (vm_compute; reflexivity).
  destruct (C8_export_of_empty_collection no_csv w) as (H1 & H2 & H3).
  destruct (H1 Ho) as (w1 & E1 & _). destruct (H2 Hr) as (w2 & E2 & _).
  destruct (H3 Hc) as (w3 & E3 & _).
  rewrite E1, E2, E3. repeat split; assumption.
Defined.

(** C9. Two signup requests that agree on every field except [password]
    have the same outcome in every world and at every clock reading: the
    same response and the same world afterwards, hence the same stored
    customer collection; and the record built for the new customer has no
    [password] property. *)
Theorem C9_password_is_not_observable (now : clock) (body1 body2 : object)
    (w : world) :
  (forall k, k <> "password" -> Obj.get k body1 = Obj.get k body2) ->
  post_signup now body1 w = post_signup now body2 w
  /\ newCustomer_of now body1 = newCustomer_of now body2
  /\ ~ In "password" (Obj.keys (newCustomer_of now body1)).
Proof.
  intros Hsame.
  assert (Hname := Hsame "name" ltac:(discriminate)).
  assert (Hemail := Hsame "email" ltac:(discriminate)).
  assert (Hphone := Hsame "phone" ltac:(discriminate)).
  assert (Hstreet := Hsame "street" ltac:(discriminate)).
  assert (Hcity := Hsame "city" ltac:(discriminate)).
  assert (Hstate := Hsame "state" ltac:(discriminate)).
  assert (Hpincode := Hsame "pincode" ltac:(discriminate)).
  assert (Hdob := Hsame "dob" ltac:(discriminate)).
  split; [|split].
  - unfold post_signup.
    now rewrite Hname, Hemail, Hphone, Hstreet, Hcity, Hstate, Hpincode, Hdob.
  - unfold newCustomer_of.
    now rewrite Hname, Hemail, Hphone, Hstreet, Hcity, Hstate, Hpincode, Hdob.
  - cbn. intros H. repeat (destruct H as [H|H]; [discriminate H|]). exact H.
Qed.

Lemma C9_witness :
  let body1 := [("email", JStr "a@x.com"); ("password", JStr "hunter2")] in
  let body2 := [("email", JStr "a@x.com"); ("password", JStr "swordfish")] in
  (forall k, k <> "password" -> Obj.get k body1 = Obj.get k body2)
  /\ post_signup noon body1 empty_world = post_signup noon body2 empty_world.
Proof.
  intros body1 body2.
  assert (Hsame : forall k, k <> "password" ->
                            Obj.get k body1 = Obj.get k body2).
  { intros k Hk. subst body1 body2. cbn [Obj.get].
    destruct (String.eqb k "email"); [reflexivity|].
    destruct (String.eqb_spec k "password"); [contradiction|reflexivity]. }
  split; [exact Hsame|].
  exact (proj1 (C9_password_is_not_observable noon body1 body2 empty_world
                  Hsame)).
Defined.

(** C10. With the correct secret, update-menu writes whatever JSON value the
    request carries as [menu] - an array or not - as the whole content of
    the menu file, and the next GET /api/menu answers with exactly that
    value. *)
Theorem C10_menu_is_stored_verbatim (req_body : object) (w : world) :
  strict_equals (Obj.get "password" req_body) (JStr "themomchef@123") = true ->
  is_json (Obj.get "menu" req_body) = true ->
  exists w',
    post_update_menu req_body w
    = (Return (Response 200 (message "Menu updated successfully!")), w')
    /\ JSON.stringify (Obj.get "menu" req_body) = files w' !! menuFilePath
    /\ get_menu w'
       = (Return (Response 200 (Json (Obj.get "menu" req_body))), w').
Proof.
  intros Hsecret Hjson.
  destruct (writeData_json menuFilePath _ Hjson) as (data & Hdata & H).
  destruct (H w) as [Hwrite Hread]. eexists. split; [|split].
  - unfold post_update_menu, try_catch, bind. rewrite Hsecret. cbn [negb].
    now rewrite Hwrite.
  - rewrite Hdata. cbn [files]. symmetry. apply lookup_insert_eq.
  - unfold get_menu, try_catch, bind. now rewrite Hread.
Qed.

Lemma C10_witness :
  strict_equals
    (Obj.get "password"
       [("password", JStr "themomchef@123"); ("menu", JObj [("closed", JBool true)])])
    (JStr "themomchef@123") = true
  /\ is_json
       (Obj.get "menu"
          [("password", JStr "themomchef@123");
           ("menu", JObj [("closed", JBool true)])]) = true
  /\ exists w',
       post_update_menu
         [("password", JStr "themomchef@123");
          ("menu", JObj [("closed", JBool true)])] empty_world
       = (Return (Response 200 (message "Menu updated successfully!")), w')
       /\ get_menu w'
          = (Return (Response 200 (Json (JObj [("closed", JBool true)]))), w').
Proof.
  split; [reflexivity|]. split; [reflexivity|].
  destruct (C10_menu_is_stored_verbatim
              [("password", JStr "themomchef@123");
               ("menu", JObj [("closed", JBool true)])] empty_world)
    as (w' & H1 & _ & H2); [reflexivity|reflexivity|].
  exists w'. split; [exact H1|exact H2].
Defined.

(** * Further properties *)

Module FurtherFacts.

(** *** Loading changes nothing that a later load can see *)

Lemma stored_files (q : string) (w1 w2 : world) :
  files w1 !! q = files w2 !! q -> stored q w1 = stored q w2.
Proof.
  intros H. unfold stored. destruct (files w2 !! q) as [data|] eqn:E.
  - now rewrite (readData_present q w1 data H), (readData_present q w2 data E).
  - now rewrite (readData_absent q w1 H), (readData_absent q w2 E).
Qed.

Lemma readData_world (filePath : string) (w : world) :
  (is_Some (files w !! filePath) /\ snd (readData filePath w) = w)
  \/ (files w !! filePath = None
      /\ fst (readData filePath w) = Return (JArr [])
      /\ snd (readData filePath w)
         = World (<[filePath := "[]"]> (files w))
                 (journal w ++ [Wrote filePath "[]"])).
Proof.
  destruct (files w !! filePath) as [data|] eqn:E.
  - left. split; [eauto|]. now rewrite (readData_present _ _ _ E).
  - right. split; [reflexivity|]. now rewrite (readData_absent _ _ E).
Qed.

Lemma readData_preserves_stored (filePath q : string) (w : world) :
  stored q (snd (readData filePath w)) = stored q w.
Proof.
  destruct (readData_world filePath w) as [[_ ->]|(Habsent & Hfst & Hsnd)];
    [reflexivity|].
  destruct (decide (q = filePath)) as [->|Hne].
  - pose proof (readData_absent filePath w Habsent) as Hfirst.
    rewrite Hfirst. cbn [snd].
    unfold stored. now rewrite (readData_again _ _ _ _ Hfirst), Hfirst.
  - apply stored_files. rewrite Hsnd. cbn [files].
    now apply lookup_insert_ne.
Qed.

Lemma readData_fst (filePath : string) (w : world) :
  fst (readData filePath w) = stored filePath w.
Proof. reflexivity. Qed.

(** *** Which files a computation can change *)

Lemma touches_ret {A : Type} (path : string) (a : A) :
  touches_only path (ret a).
Proof. intros w q. split; auto. Qed.

Lemma touches_throw {A : Type} (path : string) (e : error) :
  touches_only path (@throw A e).
Proof. intros w q. split; auto. Qed.

Lemma touches_lift {A : Type} (path : string) (o : outcome A) :
  touches_only path (lift o).
Proof. intros w q. split; auto. Qed.

Lemma touches_bind {A B : Type} (path : string) (m : M A) (k : A -> M B) :
  touches_only path m -> (forall a, touches_only path (k a)) ->
  touches_only path (bind m k).
Proof.
  intros Hm Hk w q. unfold bind. specialize (Hm w q).
  destruct (m w) as [[a|e] w1]; cbn [snd] in *; [|exact Hm].
  specialize (Hk a w1 q). destruct Hm as [Hm1 Hm2], Hk as [Hk1 Hk2].
  split; [intros Hq; now rewrite Hk1, Hm1|auto].
Qed.

Lemma touches_try_catch {A : Type} (path : string) (m : M A)
    (handler : error -> M A) :
  touches_only path m -> (forall e, touches_only path (handler e)) ->
  touches_only path (try_catch m handler).
Proof.
  intros Hm Hh w q. unfold try_catch. specialize (Hm w q).
  destruct (m w) as [[a|e] w1]; cbn [snd] in *; [exact Hm|].
  specialize (Hh e w1 q). destruct Hm as [Hm1 Hm2], Hh as [Hh1 Hh2].
  split; [intros Hq; now rewrite Hh1, Hm1|auto].
Qed.

Lemma touches_writeData (path : string) (v : jsval) :
  touches_only path (writeData path v).
Proof.
  intros w q. unfold writeData, fs.writeFile.
  destruct (JSON.stringify v) as [data|]; cbn [snd files throw]; [|auto].
  split.
  - intros Hq. now apply lookup_insert_ne.
  - intros Hsome. destruct (decide (path = q)) as [->|Hne].
    + rewrite lookup_insert_eq. eauto.
    + now rewrite lookup_insert_ne.
Qed.

Lemma touches_readData (path : string) : touches_only path (readData path).
Proof.
  intros w q.
  destruct (readData_world path w) as [[_ ->]|(_ & _ & ->)]; [auto|].
  cbn [files]. split.
  - intros Hq. now apply lookup_insert_ne.
  - intros Hsome. destruct (decide (path = q)) as [->|Hne].
    + rewrite lookup_insert_eq. eauto.
    + now rewrite lookup_insert_ne.
Qed.

Lemma touches_Parser_parse (path : string) (format : jsval -> option string)
    (records : jsval) :
  touches_only path (Parser_parse format records).
Proof.
  intros w q. unfold Parser_parse.
  destruct (format records); cbn [snd files]; auto.
Qed.

Ltac touches :=
  repeat first
    [ apply touches_ret | apply touches_throw | apply touches_lift
    | apply touches_readData | apply touches_writeData
    | apply touches_Parser_parse
    | apply touches_bind | apply touches_try_catch
    | match goal with
      | |- forall _, _ => intro
      | |- touches_only _ (if ?b then _ else _) => destruct b
      end ].

(** *** Which statuses a computation can return *)

Lemma returns_ret (codes : list Z) (r : response) :
  In (status r) codes -> returns_only codes (ret r).
Proof. intros H w r' w' [= <- _]. exact H. Qed.

Lemma returns_bind {A : Type} (codes : list Z) (m : M A)
    (k : A -> M response) :
  (forall a, returns_only codes (k a)) -> returns_only codes (bind m k).
Proof.
  intros Hk w r w'. unfold bind. destruct (m w) as [[a|e] w1]; [|discriminate].
  apply Hk.
Qed.

Lemma answers_ret (codes : list Z) (r : response) :
  In (status r) codes -> answers codes (ret r).
Proof. intros H w. now exists r. Qed.

Lemma answers_try_catch (codes : list Z) (m : M response) (b : payload) :
  returns_only codes m -> In 500 codes ->
  answers codes (try_catch m (fun _ => ret (Response 500 b))).
Proof.
  intros Hm H500 w. unfold try_catch.
  destruct (m w) as [[r|e] w1] eqn:E.
  - exists r. split; [reflexivity|]. exact (Hm _ _ _ E).
  - now eexists.
Qed.

Ltac statuses :=
  repeat first
    [ apply returns_ret; cbn; tauto
    | apply returns_bind
    | match goal with
      | |- forall _, _ => intro
      | |- returns_only _ (if ?b then _ else _) => destruct b
      end ].

(** *** What a computation can see of the files *)

Lemma same_collections_refl (w : world) : same_collections w w.
Proof. now intros q. Qed.



Lemma same_collections_sym (w1 w2 : world) :
  same_collections w1 w2 -> same_collections w2 w1.
Proof. intros H q. now rewrite H. Qed.











(** *** Requests that are not answered with success *)







(** *** Storage that cannot be used *)


Lemma readData_not_array (filePath : string) (w : world) (v : jsval) :
  stored filePath w = Return v -> is_array v = false ->
  readData filePath w = (Return v, w).
Proof.
  intros Hstored Hv. unfold stored in Hstored.
  destruct (readData_world filePath w) as [[_ Hw]|(_ & Hfst & _)].
  - destruct (readData filePath w) as [o w1]. cbn [fst snd] in *. congruence.
  - rewrite Hfst in Hstored. injection Hstored as <-. discriminate.
Qed.

(** *** Emails *)

Lemma signup_duplicate (now : clock) (req_body : object) (w : world)
    (customers : list jsval) :
  stored customersFilePath w = Return (JArr customers) ->
  forallb is_record customers = true ->
  existsb (has_email (Obj.get "email" req_body)) customers = true ->
  post_signup now req_body w
  = (Return
       (Response 400 (message "A customer with this email already exists.")),
     w).
Proof.
  intros [w1 Hread]%stored_readData Hrecords Hdup.
  destruct customers as [|c customers]; [discriminate|].
  pose proof (readData_nonempty _ _ _ _ _ Hread) as ->.
  destruct (find_in_present _ _ Hrecords Hdup) as (found & Hfind & Htruthy).
  unfold post_signup, try_catch, bind. rewrite Hread. unfold lift.
  cbn [Array_find].
  change (fun customer => match get_property customer "email" with
                          | Return e =>
                              Return (strict_equals e (Obj.get "email" req_body))
                          | Throw err => Throw err
                          end)
    with (same_email (Obj.get "email" req_body)).
  now rewrite Hfind, Htruthy.
Qed.

Lemma strict_equals_sym (a b : jsval) : strict_equals a b = strict_equals b a.
Proof.
  destruct a, b; cbn [strict_equals]; try reflexivity.
  - now destruct b, b0.
  - apply Z.eqb_sym.
  - apply String.eqb_sym.
Qed.

Lemma get_absent (k : string) (o : object) :
  ~ In k (map fst o) -> Obj.get k o = JUndefined.
Proof.
  induction o as [|[k' v] o IH]; [reflexivity|]. cbn [map fst In Obj.get].
  intros Hk. destruct (String.eqb_spec k k') as [->|_]; [|apply IH]; tauto.
Qed.

Lemma persisted_keys (k : string) (o : object) :
  In k (map fst (persisted o)) -> In k (map fst o).
Proof.
  intros ([k' v] & <- & Hin)%in_map_iff. apply filter_In in Hin as [Hin _].
  apply in_map_iff. now exists (k', v).
Qed.

Lemma defined_false (v : jsval) : defined v = false -> v = JUndefined.
Proof. now destruct v. Qed.

(** What the file keeps of a property is what the object held, an absent
    property and an [undefined] one reading alike. *)
Lemma get_persisted_distinct (k : string) (o : object) :
  distinct (map fst o) = true -> Obj.get k (persisted o) = Obj.get k o.
Proof.
  induction o as [|[k' v] o IH]; [reflexivity|].
  cbn [map fst]. intros [Hfresh Hd]%distinct_cons.
  unfold persisted in *. cbn [List.filter snd Obj.get].
  destruct (String.eqb_spec k k') as [->|Hne].
  - destruct (defined v) eqn:E; cbn [Obj.get].
    + now rewrite String.eqb_refl.
    + rewrite (defined_false v E). apply get_absent.
      intros Hin. apply Hfresh. exact (persisted_keys _ _ Hin).
  - destruct (defined v); cbn [Obj.get]; [|now apply IH].
    destruct (String.eqb_spec k k'); [contradiction|now apply IH].
Qed.

Lemma newCustomer_email (now : clock) (req_body : object) :
  email_of (JObj (persisted (newCustomer_of now req_body)))
  = Obj.get "email" req_body.
Proof. cbn [email_of]. now rewrite get_persisted_distinct. Qed.

Lemma emails_distinct_snoc (customers : list jsval) (c : jsval) :
  emails_distinct customers = true ->
  existsb (has_email (email_of c)) customers = false ->
  forallb is_record customers = true -> is_record c = true ->
  emails_distinct (customers ++ [c]) = true.
Proof.
  intros Hd Hfresh Hrecords Hc.
  induction customers as [|c1 customers IH]; [reflexivity|].
  cbn [emails_distinct existsb forallb app] in *.
  apply andb_prop in Hd as [H1 Hd]. apply andb_prop in Hrecords as [Hr1 Hr].
  apply Bool.orb_false_iff in Hfresh as [Hc1 Hfresh].
  rewrite IH by assumption. rewrite Bool.andb_true_r.
  rewrite existsb_app. apply negb_true_iff in H1. rewrite H1.
  cbn [existsb orb]. rewrite Bool.orb_false_r. apply negb_true_iff.
  destruct c1; try discriminate. destruct c; try discriminate.
  cbn [has_email email_of] in *. now rewrite strict_equals_sym.
Qed.

(** *** Requests served one after the other *)

Lemma serve_orders (requests : list (clock * object)) :
  forall (w : world) (orders : list jsval),
    forallb well_formed requests = true ->
    stored ordersFilePath w = Return (JArr orders) ->
    exists w',
      serve post_orders requests w
      = (Return (map (fun rq => order_received (fst rq) (snd rq)) requests),
         w')
      /\ stored ordersFilePath w'
         = Return (JArr (orders
                           ++ map (fun rq =>
                                     JObj (submitted_of (fst rq) (snd rq)))
                                requests)).
Proof.
  induction requests as [|[now req_body] requests IH];
    intros w orders Hwf Hstored.
  - exists w. split; [reflexivity|]. cbn [map]. now rewrite app_nil_r.
  - cbn [forallb] in Hwf. apply andb_prop in Hwf as [Hrq Hwf].
    unfold well_formed in Hrq. cbn [fst snd] in Hrq.
    apply andb_prop in Hrq as [Hnow Hbody].
    apply stored_readData in Hstored as [w1 Hread].
    destruct (orders_appends now req_body w w1 orders Hnow Hbody Hread)
      as (w2 & Hresponse & Hstored2).
    destruct (IH w2 _ Hwf (readData_stored _ _ _ _ Hstored2))
      as (w3 & Hrest & Hstored3).
    exists w3. split.
    + cbn [serve map fst snd]. unfold bind at 1. rewrite Hresponse.
      unfold bind at 1. now rewrite Hrest.
    + rewrite Hstored3. cbn [map fst snd]. now rewrite <- app_assoc.
Qed.

Lemma serve_reservations (requests : list (clock * object)) :
  forall (w : world) (reservations : list jsval),
    forallb well_formed requests = true ->
    stored reservationsFilePath w = Return (JArr reservations) ->
    exists w',
      serve post_reservations requests w
      = (Return (map (fun rq => reservation_received (fst rq) (snd rq))
                   requests), w')
      /\ stored reservationsFilePath w'
         = Return (JArr (reservations
                           ++ map (fun rq =>
                                     JObj (submitted_of (fst rq) (snd rq)))
                                requests)).
Proof.
  induction requests as [|[now req_body] requests IH];
    intros w reservations Hwf Hstored.
  - exists w. split; [reflexivity|]. cbn [map]. now rewrite app_nil_r.
  - cbn [forallb] in Hwf. apply andb_prop in Hwf as [Hrq Hwf].
    unfold well_formed in Hrq. cbn [fst snd] in Hrq.
    apply andb_prop in Hrq as [Hnow Hbody].
    apply stored_readData in Hstored as [w1 Hread].
    destruct (reservations_appends now req_body w w1 reservations Hnow Hbody
                Hread) as (w2 & Hresponse & Hstored2).
    destruct (IH w2 _ Hwf (readData_stored _ _ _ _ Hstored2))
      as (w3 & Hrest & Hstored3).
    exists w3. split.
    + cbn [serve map fst snd]. unfold bind at 1. rewrite Hresponse.
      unfold bind at 1. now rewrite Hrest.
    + rewrite Hstored3. cbn [map fst snd]. now rewrite <- app_assoc.
Qed.

(** *** More on requests that fail *)

Lemma readData_absent_stored (filePath : string) (w : world) :
  files w !! filePath = None -> stored filePath w = Return (JArr []).
Proof. intros H. unfold stored. now rewrite (readData_absent _ _ H). Qed.




Lemma signup_keeps_emails_distinct (now : clock) (req_body : object)
    (w : world) (customers : list jsval) :
  time_value (Date_now now) = true ->
  is_json (JObj req_body) = true ->
  stored customersFilePath w = Return (JArr customers) ->
  forallb is_record customers = true ->
  emails_distinct customers = true ->
  exists r added,
    fst (post_signup now req_body w) = Return r
    /\ stored customersFilePath (snd (post_signup now req_body w))
       = Return (JArr (customers ++ added))
    /\ forallb is_record (customers ++ added) = true
    /\ emails_distinct (customers ++ added) = true.
Proof.
  intros Hnow Hbody Hstored Hrecords Hdistinct.
  destruct (existsb (has_email (Obj.get "email" req_body)) customers) eqn:E.
  - rewrite (signup_duplicate now req_body w customers Hstored Hrecords E).
    cbn [fst snd]. eexists _, []. now rewrite app_nil_r.
  - pose proof Hstored as [w1 Hread]%stored_readData.
    destruct (signup_appends now req_body w w1 customers Hnow Hbody Hread
                Hrecords E) as (w2 & -> & Hstored2 & _).
    cbn [fst snd]. eexists _, [_]. split; [reflexivity|].
    split; [exact (readData_stored _ _ _ _ Hstored2)|]. split.
    + rewrite forallb_app, Hrecords. reflexivity.
    + apply emails_distinct_snoc; try assumption; [|reflexivity].
      now rewrite newCustomer_email.
Qed.

End FurtherFacts.

Import FurtherFacts.

(** X1. A load changes nothing that a later load can see: whatever every
    collection loaded as before, it loads as after; no other file is
    touched; and when the file exists the world is left exactly as it
    was. *)
Theorem X1_load_changes_nothing_visible (filePath : string) (w : world) :
  (forall q, stored q (snd (readData filePath w)) = stored q w)
  /\ (forall q, q <> filePath ->
                files (snd (readData filePath w)) !! q = files w !! q)
  /\ (is_Some (files w !! filePath) -> snd (readData filePath w) = w).
Proof.
  split; [|split].
  - intros q. apply readData_preserves_stored.
  - intros q Hq. now apply (touches_readData filePath w q).
  - intros [data Hdata]. now rewrite (readData_present _ _ _ Hdata).
Qed.

Lemma X1_witness :
  let w := World {[ordersFilePath := ""]} [] in
  menuFilePath <> customersFilePath
  /\ is_Some (files w !! ordersFilePath)
  /\ files (snd (readData customersFilePath w)) !! menuFilePath
     = files w !! menuFilePath
  /\ snd (readData ordersFilePath w) = w.
Proof.
  intros w.
  assert (Hne : menuFilePath <> customersFilePath) by discriminate.
  assert (Hsome : is_Some (files w !! ordersFilePath)) by (now eexists).
  split; [exact Hne|]. split; [exact Hsome|]. split.
  - exact (proj1 (proj2 (X1_load_changes_nothing_visible customersFilePath w))
             menuFilePath Hne).
  - exact (proj2 (proj2 (X1_load_changes_nothing_visible ordersFilePath w))
             Hsome).
Defined.

(** X2. Every route keeps to the file of its own collection: it changes no
    other file, and it removes no file at all. *)
Theorem X2_routes_keep_to_their_file (now : clock) (req_body : object)
    (format : jsval -> option string) :
  touches_only customersFilePath (post_signup now req_body)
  /\ touches_only ordersFilePath (post_orders now req_body)
  /\ touches_only reservationsFilePath (post_reservations now req_body)
  /\ touches_only menuFilePath (post_update_menu req_body)
  /\ touches_only menuFilePath get_menu
  /\ touches_only customersFilePath get_customers
  /\ touches_only ordersFilePath (get_export_orders format)
  /\ touches_only reservationsFilePath (get_export_reservations format)
  /\ touches_only customersFilePath (get_export_customers format).
Proof.
  unfold post_signup, post_orders, post_reservations, post_update_menu,
    get_menu, get_customers, get_export_orders, get_export_reservations,
    get_export_customers.
  cbv zeta. repeat match goal with |- _ /\ _ => split end; touches.
Qed.

Lemma X2_witness :
  let w := World {[ordersFilePath := "[]"]} [] in
  let req_body := [("email", JStr "a@x.com")] in
  ordersFilePath <> customersFilePath
  /\ files (snd (post_signup noon req_body w)) !! ordersFilePath = Some "[]".
Proof.
  intros w req_body.
  assert (Hne : ordersFilePath <> customersFilePath) by discriminate.
  split; [exact Hne|].
  destruct (X2_routes_keep_to_their_file noon req_body no_csv) as [H _].
  destruct (H w ordersFilePath) as [Hother _].
  rewrite (Hother Hne). reflexivity.
Defined.

(** X3. No exception escapes a route: in every world and for every request
    it returns a response, and the status is one the route can give. *)
Theorem X3_routes_always_answer (now : clock) (req_body : object)
    (format : jsval -> option string) :
  answers [200] get_root
  /\ answers [200; 500] get_menu
  /\ answers [201; 400; 500] (post_signup now req_body)
  /\ answers [201; 500] (post_orders now req_body)
  /\ answers [201; 500] (post_reservations now req_body)
  /\ answers [200; 401; 500] (post_update_menu req_body)
  /\ answers [200; 500] get_customers
  /\ answers [200; 500] (get_export_orders format)
  /\ answers [200; 500] (get_export_reservations format)
  /\ answers [200; 500] (get_export_customers format).
Proof.
  unfold get_root, post_signup, post_orders, post_reservations,
    post_update_menu, get_menu, get_customers, get_export_orders,
    get_export_reservations, get_export_customers.
  cbv zeta.
  repeat match goal with |- _ /\ _ => split end;
    try (apply answers_try_catch; [statuses|cbn; tauto]).
  - apply answers_ret. cbn. tauto.
  - destruct (negb _); [apply answers_ret; cbn; tauto|].
    apply answers_try_catch; [statuses|cbn; tauto].
Qed.









(** X8. When a collection loads as something that is not an array, a
    signup, an order and a reservation are answered 500 and the world is
    left as it was. *)
Theorem X8_collection_that_is_no_array (now : clock) (req_body : object)
    (w : world) (v : jsval) :
  is_array v = false ->
  (stored customersFilePath w = Return v ->
   post_signup now req_body w
   = (Return (Response 500 (message "Failed to register customer.")), w))
  /\ (stored ordersFilePath w = Return v ->
      post_orders now req_body w
      = (Return (Response 500 (message "Failed to save order")), w))
  /\ (stored reservationsFilePath w = Return v ->
      post_reservations now req_body w
      = (Return (Response 500 (message "Failed to save reservation")), w)).
Proof.
  intros Hv.
  repeat match goal with |- _ /\ _ => split end;
    intros Hstored; pose proof (readData_not_array _ _ _ Hstored Hv) as Hread;
    unfold post_signup, post_orders, post_reservations, try_catch, bind, lift;
    rewrite Hread; now destruct v.
Qed.

Lemma X8_witness :
  let w := World {[ordersFilePath := "{}"]} [] in
  is_array (JObj []) = false
  /\ stored ordersFilePath w = Return (JObj [])
  /\ post_orders noon [("dish", JStr "Dal")] w
     = (Return (Response 500 (message "Failed to save order")), w).
Proof.
  intros w.
  assert (Hstored : stored ordersFilePath w = Return (JObj []))
    by (vm_compute; reflexivity).
  split; [reflexivity|]. split; [exact Hstored|].
  exact (proj1 (proj2 (X8_collection_that_is_no_array noon
                         [("dish", JStr "Dal")] w (JObj []) eq_refl))
           Hstored).
Defined.



Lemma serve_cons_world (handler : clock -> object -> M response)
    (now : clock) (req_body : object) (requests : list (clock * object))
    (w : world) (r : response) :
  fst (handler now req_body w) = Return r ->
  snd (serve handler ((now, req_body) :: requests) w)
  = snd (serve handler requests (snd (handler now req_body w))).
Proof.
  cbn [serve]. unfold bind.
  destruct (handler now req_body w) as [o w1]. cbn [fst snd]. intros ->.
  now destruct (serve handler requests w1) as [[rs|e] w2].
Qed.

(** X10. Signups keep the customer collection a sequence of records no two
    of which have the same email, and they keep every record they find, in
    place: if the collection is so before a series of signups, it is so
    after it, however the signups are answered. *)
Theorem X10_signups_keep_emails_distinct (requests : list (clock * object))
    (w : world) (customers : list jsval) :
  forallb well_formed requests = true ->
  stored customersFilePath w = Return (JArr customers) ->
  forallb is_record customers = true ->
  emails_distinct customers = true ->
  exists added,
    stored customersFilePath (snd (serve post_signup requests w))
    = Return (JArr (customers ++ added))
    /\ forallb is_record (customers ++ added) = true
    /\ emails_distinct (customers ++ added) = true.
Proof.
  revert w customers.
  induction requests as [|[now req_body] requests IH];
    intros w customers Hwf Hstored Hrecords Hdistinct.
  - exists []. rewrite app_nil_r. now repeat split.
  - cbn [forallb] in Hwf. apply andb_prop in Hwf as [Hrq Hwf].
    unfold well_formed in Hrq. cbn [fst snd] in Hrq.
    apply andb_prop in Hrq as [Hnow Hbody].
    destruct (signup_keeps_emails_distinct now req_body w customers Hnow
                Hbody Hstored Hrecords Hdistinct)
      as (r & added & Hr & Hstored1 & Hrecords1 & Hdistinct1).
    destruct (IH _ _ Hwf Hstored1 Hrecords1 Hdistinct1)
      as (more & Hstored2 & Hrecords2 & Hdistinct2).
    exists (added ++ more). rewrite (serve_cons_world _ _ _ _ _ r Hr).
    rewrite app_assoc. now repeat split.
Qed.

Lemma X10_witness :
  let requests :=
    [(noon, [("email", JStr "a@x.com")]);
     (noon, [("email", JStr "b@x.com"); ("name", JStr "Bo")]);
     (noon, [("email", JStr "a@x.com"); ("name", JStr "Again")])] in
  forallb well_formed requests = true
  /\ stored customersFilePath empty_world = Return (JArr [])
  /\ exists customers,
       stored customersFilePath (snd (serve post_signup requests empty_world))
       = Return (JArr customers)
       /\ emails_distinct customers = true.
Proof.
  intros requests. do 2 (split; [reflexivity|]).
  destruct (X10_signups_keep_emails_distinct requests empty_world [])
    as (added & Hstored & _ & Hdistinct); [reflexivity..|].
  exists ([] ++ added). split; [exact Hstored|exact Hdistinct].
Defined.

(** X11. Orders, and reservations, are kept in the order they came: after
    any series of requests on a collection that loads as an array, every
    one is answered 201 and the collection is the records it held before,
    followed by one record for each request, in the order of the
    requests. *)
Theorem X11_submissions_are_kept_in_order (requests : list (clock * object))
    (w : world) (records : list jsval) :
  forallb well_formed requests = true ->
  (stored ordersFilePath w = Return (JArr records) ->
   exists w',
     serve post_orders requests w
     = (Return (map (fun rq => order_received (fst rq) (snd rq)) requests),
        w')
     /\ stored ordersFilePath w'
        = Return (JArr (records
                          ++ map (fun rq =>
                                    JObj (submitted_of (fst rq) (snd rq)))
                               requests)))
  /\ (stored reservationsFilePath w = Return (JArr records) ->
      exists w',
        serve post_reservations requests w
        = (Return (map (fun rq => reservation_received (fst rq) (snd rq))
                     requests), w')
        /\ stored reservationsFilePath w'
           = Return (JArr (records
                             ++ map (fun rq =>
                                       JObj (submitted_of (fst rq) (snd rq)))
                                  requests))).
Proof.
  intros Hwf. split; intros Hstored.
  - now apply serve_orders.
  - now apply serve_reservations.
Qed.

Lemma X11_witness :
  let later := Clock 1700000000001 "2023-11-14T22:13:20.001Z" in
  let requests :=
    [(noon, [("dish", JStr "Dal")]); (later, [("dish", JStr "Roti")])] in
  forallb well_formed requests = true
  /\ stored ordersFilePath empty_world = Return (JArr [])
  /\ exists w',
       stored ordersFilePath w'
       = Return (JArr [JObj (submitted_of noon [("dish", JStr "Dal")]);
                       JObj (submitted_of later [("dish", JStr "Roti")])]).
Proof.
  intros later requests. do 2 (split; [reflexivity|]).
  destruct (X11_submissions_are_kept_in_order requests empty_world [])
    as [Horders _]; [reflexivity|].
  destruct (Horders eq_refl) as (w' & _ & Hstored).
  exists w'. exact Hstored.
Defined.

(** X12. After a signup has succeeded, GET /api/customers answers 200 with
    the customers it held before followed by the new one, as the file keeps
    it; that record has no [password]. *)
Theorem X12_new_customer_is_listed (now : clock) (req_body : object)
    (w : world) (customers : list jsval) :
  time_value (Date_now now) = true ->
  is_json (JObj req_body) = true ->
  stored customersFilePath w = Return (JArr customers) ->
  forallb is_record customers = true ->
  existsb (has_email (Obj.get "email" req_body)) customers = false ->
  exists w',
    snd (post_signup now req_body w) = w'
    /\ get_customers w'
       = (Return
            (Response 200
               (Json (JArr (customers
                              ++ [JObj (persisted
                                          (newCustomer_of now req_body))])))),
          w')
    /\ Obj.get "password" (persisted (newCustomer_of now req_body))
       = JUndefined.
Proof.
  intros Hnow Hbody [w1 Hread]%stored_readData Hrecords Hfresh.
  destruct (signup_appends now req_body w w1 customers Hnow Hbody Hread
              Hrecords Hfresh) as (w2 & Hresponse & Hstored & _).
  exists w2. split; [now rewrite Hresponse|]. split.
  - unfold get_customers, try_catch, bind. now rewrite Hstored.
  - now rewrite get_persisted_distinct.
Qed.

Lemma X12_witness :
  let req_body := [("email", JStr "a@x.com"); ("password", JStr "pw")] in
  time_value (Date_now noon) = true
  /\ is_json (JObj req_body) = true
  /\ stored customersFilePath empty_world = Return (JArr [])
  /\ exists w',
       get_customers w'
       = (Return
            (Response 200
               (Json (JArr [JObj [("id", JNum 1700000000000);
                                  ("email", JStr "a@x.com");
                                  ("signupDate",
                                   JStr "2023-11-14T22:13:20.000Z")]]))),
          w').
Proof.
  intros req_body. do 3 (split; [reflexivity|]).
  destruct (X12_new_customer_is_listed noon req_body empty_world [])
    as (w' & _ & Hlist & _); [reflexivity..|].
  exists w'. exact Hlist.
Defined.

(** X13. An export of a collection that loads as a non-empty array calls
    the formatter once, on exactly that array, and writes no file; it
    answers 200 with the formatter's text as the attachment of its route,
    or 500 with its fixed message when the formatter throws. *)
Theorem X13_export_of_records (format : jsval -> option string) (w : world)
    (first : jsval) (rest : list jsval) :
  let records := JArr (first :: rest) in
  let w' := World (files w) (journal w ++ [Formatted records]) in
  (stored ordersFilePath w = Return records ->
   get_export_orders format w
   = (match format records with
      | Some csv => Return (Response 200 (Csv "orders.csv" csv))
      | None => Return (Response 500 (message "Failed to export orders."))
      end, w'))
  /\ (stored reservationsFilePath w = Return records ->
      get_export_reservations format w
      = (match format records with
         | Some csv => Return (Response 200 (Csv "reservations.csv" csv))
         | None =>
             Return (Response 500 (message "Failed to export reservations."))
         end, w'))
  /\ (stored customersFilePath w = Return records ->
      get_export_customers format w
      = (match format records with
         | Some csv => Return (Response 200 (Csv "customers.csv" csv))
         | None =>
             Return (Response 500 (message "Failed to export customers."))
         end, w')).
Proof.
  intros records w'. subst records w'.
  repeat match goal with |- _ /\ _ => split end;
    intros [w1 Hread]%stored_readData;
    pose proof (readData_nonempty _ _ _ _ _ Hread) as ->;
    unfold get_export_orders, get_export_reservations, get_export_customers,
      try_catch, bind, lift, Parser_parse;
    rewrite Hread; cbn [get_property]; cbn;
    now destruct (format (JArr (first :: rest))).
Qed.

Lemma X13_witness :
  let w := snd (post_orders noon [("dish", JStr "Dal")] empty_world) in
  let record := JObj (submitted_of noon [("dish", JStr "Dal")]) in
  let format := fun _ : jsval => Some "id,date,dish" in
  stored ordersFilePath w = Return (JArr [record])
  /\ get_export_orders format w
     = (Return (Response 200 (Csv "orders.csv" "id,date,dish")),
        World (files w) (journal w ++ [Formatted (JArr [record])])).
Proof.
  intros w record format.
  assert (Hstored : stored ordersFilePath w = Return (JArr [record]))
    by (vm_compute; reflexivity).
  split; [exact Hstored|].
  exact (proj1 (X13_export_of_records format w record []) Hstored).
Defined.
